(** * mcp-sdk-ts: the tool invocation pipeline, the schema translator,
      the tool registry and the admission middleware

    A shallow embedding of [src/core/tool.ts] and [src/core/server.ts]
    (server and built-in middleware), with the properties the specification
    states about them. *)

From Stdlib Require Import ZArith String Ascii List Bool Lia.
From stdpp Require Import base option list strings gmap fin_maps pretty.

Set Warnings "-register-all,-clear-no-such-hyp".
Open Scope Z_scope.
Open Scope string_scope.

(* ===================================================================== *)
(** * JavaScript values and strings *)
(* ===================================================================== *)

(** JavaScript strings are carried as Rocq strings (UTF-8 bytes). Numbers are
    carried as integers: no definition below performs arithmetic on a tool's
    numbers, they are only compared with zero (truthiness) and printed. *)
Inductive value : Type :=
  | VUndefined
  | VNull
  | VBool (b : bool)
  | VNumber (n : Z)
  | VString (s : string)
  | VArray (elements : list value)
  | VObject (members : list (string * value)).

(** One-character strings that a Rocq literal cannot hold conveniently. *)
Definition dquote : string := String "034"%char EmptyString.
Definition newline : string := String "010"%char EmptyString.

(** [Array.prototype.join(sep)] on an array of strings. *)
Fixpoint join (sep : string) (parts : list string) : string :=
  match parts with
  | [] => EmptyString
  | [p] => p
  | p :: rest => p +:+ sep +:+ join sep rest
  end.

(** [text.includes(s)]: [s] occurs in [text]. *)
Definition includes (text s : string) : Prop :=
  exists pre post : string, text = pre +:+ s +:+ post.

(** JavaScript truthiness, the test behind [if (x)], [x && y] and [x || y]. *)
Definition truthy (v : value) : bool :=
  match v with
  | VUndefined | VNull => false
  | VBool b => b
  | VNumber n => negb (n =? 0)%Z
  | VString s => negb (String.eqb s EmptyString)
  | VArray _ | VObject _ => true
  end.

(** [typeof v]. *)
Definition typeof (v : value) : string :=
  match v with
  | VUndefined => "undefined"
  | VNull => "object"
  | VBool _ => "boolean"
  | VNumber _ => "number"
  | VString _ => "string"
  | VArray _ | VObject _ => "object"
  end.

Definition number_to_string (n : Z) : string := pretty n.

(** [String(v)] for a plain value. *)
Fixpoint String_ (v : value) : string :=
  match v with
  | VUndefined => "undefined"
  | VNull => "null"
  | VBool b => if b then "true" else "false"
  | VNumber n => number_to_string n
  | VString s => s
  | VArray elements =>
      join ","
        ((fix each (xs : list value) : list string :=
            match xs with
            | [] => []
            | x :: rest =>
                match x with
                | VUndefined | VNull => EmptyString
                | _ => String_ x
                end :: each rest
            end) elements)
  | VObject _ => "[object Object]"
  end.

(** ** [JSON.stringify(v, null, 2)] *)

Definition hex_digit (n : N) : ascii :=
  if (n <? 10)%N then ascii_of_N (48 + n) else ascii_of_N (87 + n).

(** The escape of one code unit inside a JSON string literal. *)
Definition escape_char (c : ascii) : string :=
  let n := N_of_ascii c in
  if (n =? 34)%N then "\" +:+ dquote
  else if (n =? 92)%N then "\\"
  else if (n =? 8)%N then "\b"
  else if (n =? 9)%N then "\t"
  else if (n =? 10)%N then "\n"
  else if (n =? 12)%N then "\f"
  else if (n =? 13)%N then "\r"
  else if (n <? 32)%N then
    "\u00" +:+ String (hex_digit (n / 16)) (String (hex_digit (n mod 16)) EmptyString)
  else String c EmptyString.

Fixpoint escape_string (s : string) : string :=
  match s with
  | EmptyString => EmptyString
  | String c rest => escape_char c +:+ escape_string rest
  end.

(** [QuoteJSONString]: the JSON string literal of [s]. *)
Definition QuoteJSONString (s : string) : string :=
  dquote +:+ escape_string s +:+ dquote.

Definition gap : string := "  ".

(** [SerializeJSONProperty] with the two-space gap; [None] is JavaScript's
    [undefined], which [JSON.stringify] returns for an undefined value, drops
    from an object and prints as [null] inside an array. *)
Fixpoint SerializeJSONProperty (indent : string) (v : value) : option string :=
  match v with
  | VUndefined => None
  | VNull => Some "null"
  | VBool b => Some (if b then "true" else "false")
  | VNumber n => Some (number_to_string n)
  | VString s => Some (QuoteJSONString s)
  | VArray elements =>
      let stepback := indent in
      let indent := indent +:+ gap in
      let partial :=
        (fix each (xs : list value) : list string :=
           match xs with
           | [] => []
           | x :: rest =>
               match SerializeJSONProperty indent x with
               | None => "null"
               | Some str => str
               end :: each rest
           end) elements in
      Some match partial with
           | [] => "[]"
           | _ =>
               let separator := "," +:+ newline +:+ indent in
               "[" +:+ newline +:+ indent +:+ join separator partial
                   +:+ newline +:+ stepback +:+ "]"
           end
  | VObject members =>
      let stepback := indent in
      let indent := indent +:+ gap in
      let partial :=
        (fix each (ms : list (string * value)) : list string :=
           match ms with
           | [] => []
           | (key, x) :: rest =>
               match SerializeJSONProperty indent x with
               | None => each rest
               | Some str => (QuoteJSONString key +:+ ": " +:+ str) :: each rest
               end
           end) members in
      Some match partial with
           | [] => "{}"
           | _ =>
               let separator := "," +:+ newline +:+ indent in
               "{" +:+ newline +:+ indent +:+ join separator partial
                   +:+ newline +:+ stepback +:+ "}"
           end
  end.

Definition JSON_stringify (v : value) : option string :=
  SerializeJSONProperty EmptyString v.

(* ===================================================================== *)
(** * Zod schemas and their translation ([src/core/tool.ts]) *)
(* ===================================================================== *)

(** The entries of [_def.checks] that [zodToJsonSchema] reads; every other
    kind of check (regex, finite, multipleOf, ...) is [OtherCheck]. *)
Inductive ZodStringCheck : Type :=
  | StrEmail
  | StrUrl
  | StrUuid
  | StrMin (value : Z)
  | StrMax (value : Z)
  | StrOtherCheck (kind : string).

Inductive ZodNumberCheck : Type :=
  | NumInt
  | NumMin (value : Z)
  | NumMax (value : Z)
  | NumOtherCheck (kind : string).

(** A zod schema, by the class [instanceof] finds. An object's shape is the
    sequence [Object.entries] enumerates. [ZodOther] stands for every class
    the translator does not test for (ZodDefault, ZodEffects, ZodRecord,
    ZodUnion, ...). *)
Inductive ZodType : Type :=
  | ZodObject (shape : list (string * ZodType))
  | ZodString (checks : list ZodStringCheck)
  | ZodNumber (checks : list ZodNumberCheck)
  | ZodBoolean
  | ZodArray (type : ZodType)
  | ZodOptional (innerType : ZodType)
  | ZodNullable (innerType : ZodType)
  | ZodEnum (values : list string)
  | ZodLiteral (value : value)
  | ZodOther (typeName : string).

(** The [JSONSchema] interface of [types.ts]; an absent key and a key holding
    [undefined] are both [None]. *)
Inductive JSONSchema : Type :=
  mkJSONSchema {
    type : string;
    properties : option (list (string * JSONSchema));
    required : option (list string);
    items : option JSONSchema;
    enum : option (list string);
    minimum : option Z;
    maximum : option Z;
    minLength : option Z;
    maxLength : option Z;
    format : option string;
    nullable : option bool;
    const : option value
  }.

(** The object literal [{ type: t }]. *)
Definition schema_of_type (t : string) : JSONSchema :=
  mkJSONSchema t None None None None None None None None None None None.

Definition set_type (t : string) (j : JSONSchema) : JSONSchema :=
  mkJSONSchema t (properties j) (required j) (items j) (enum j) (minimum j)
    (maximum j) (minLength j) (maxLength j) (format j) (nullable j) (const j).
Definition set_properties (p : option (list (string * JSONSchema))) (j : JSONSchema) : JSONSchema :=
  mkJSONSchema (type j) p (required j) (items j) (enum j) (minimum j)
    (maximum j) (minLength j) (maxLength j) (format j) (nullable j) (const j).
Definition set_minimum (n : Z) (j : JSONSchema) : JSONSchema :=
  mkJSONSchema (type j) (properties j) (required j) (items j) (enum j) (Some n)
    (maximum j) (minLength j) (maxLength j) (format j) (nullable j) (const j).
Definition set_maximum (n : Z) (j : JSONSchema) : JSONSchema :=
  mkJSONSchema (type j) (properties j) (required j) (items j) (enum j) (minimum j)
    (Some n) (minLength j) (maxLength j) (format j) (nullable j) (const j).
Definition set_minLength (n : Z) (j : JSONSchema) : JSONSchema :=
  mkJSONSchema (type j) (properties j) (required j) (items j) (enum j) (minimum j)
    (maximum j) (Some n) (maxLength j) (format j) (nullable j) (const j).
Definition set_maxLength (n : Z) (j : JSONSchema) : JSONSchema :=
  mkJSONSchema (type j) (properties j) (required j) (items j) (enum j) (minimum j)
    (maximum j) (minLength j) (Some n) (format j) (nullable j) (const j).
Definition set_format (f : string) (j : JSONSchema) : JSONSchema :=
  mkJSONSchema (type j) (properties j) (required j) (items j) (enum j) (minimum j)
    (maximum j) (minLength j) (maxLength j) (Some f) (nullable j) (const j).
Definition set_nullable (b : bool) (j : JSONSchema) : JSONSchema :=
  mkJSONSchema (type j) (properties j) (required j) (items j) (enum j) (minimum j)
    (maximum j) (minLength j) (maxLength j) (format j) (Some b) (const j).

(** [obj[key] = x] on an object kept as its sequence of entries: an existing
    key keeps its place, a new key goes last. *)
Fixpoint obj_set {A : Type} (obj : list (string * A)) (key : string) (x : A)
  : list (string * A) :=
  match obj with
  | [] => [(key, x)]
  | (k, y) :: rest =>
      if String.eqb k key then (k, x) :: rest else (k, y) :: obj_set rest key x
  end.

(** [value instanceof z.ZodOptional]. *)
Definition instanceof_ZodOptional (s : ZodType) : bool :=
  match s with ZodOptional _ => true | _ => false end.

(** The loop over the checks of a ZodString. *)
Definition apply_string_check (result : JSONSchema) (check : ZodStringCheck) : JSONSchema :=
  match check with
  | StrEmail => set_format "email" result
  | StrUrl => set_format "uri" result
  | StrUuid => set_format "uuid" result
  | StrMin v => set_minLength v result
  | StrMax v => set_maxLength v result
  | StrOtherCheck _ => result
  end.

(** The loop over the checks of a ZodNumber. *)
Definition apply_number_check (result : JSONSchema) (check : ZodNumberCheck) : JSONSchema :=
  match check with
  | NumInt => set_type "integer" result
  | NumMin v => set_minimum v result
  | NumMax v => set_maximum v result
  | NumOtherCheck _ => result
  end.

(** [zodToJsonSchema]. The object branch is the source's loop over
    [Object.entries(shape)], threading [properties] and [required]. *)
Fixpoint zodToJsonSchema (schema : ZodType) : JSONSchema :=
  match schema with
  | ZodObject shape =>
      let '(properties, required) :=
        (fix entries (es : list (string * ZodType))
             (properties : list (string * JSONSchema)) (required : list string)
           : list (string * JSONSchema) * list string :=
           match es with
           | [] => (properties, required)
           | (key, value) :: rest =>
               entries rest
                 (obj_set properties key (zodToJsonSchema value))
                 (if instanceof_ZodOptional value then required
                  else (required ++ [key])%list)
           end) shape [] [] in
      mkJSONSchema "object" (Some properties)
        (if (0 <? Z.of_nat (length required))%Z then Some required else None)
        None None None None None None None None None
  | ZodString checks =>
      fold_left apply_string_check checks (schema_of_type "string")
  | ZodNumber checks =>
      fold_left apply_number_check checks (schema_of_type "number")
  | ZodBoolean => schema_of_type "boolean"
  | ZodArray type =>
      mkJSONSchema "array" None None (Some (zodToJsonSchema type))
        None None None None None None None None
  | ZodOptional innerType => zodToJsonSchema innerType
  | ZodNullable innerType =>
      let inner := zodToJsonSchema innerType in
      set_nullable true inner
  | ZodEnum values =>
      mkJSONSchema "string" None None None (Some values)
        None None None None None None None
  | ZodLiteral value =>
      let literalType := typeof value in
      mkJSONSchema
        (if String.eqb literalType "string" || String.eqb literalType "number"
            || String.eqb literalType "boolean"
         then literalType else "string")
        None None None None None None None None None None (Some value)
  | ZodOther _ => schema_of_type "object"
  end.

(* ===================================================================== *)
(** * Exceptions and validation ([src/core/tool.ts]) *)
(* ===================================================================== *)

Inductive PathKey : Type :=
  | Key (k : string)
  | Index (i : Z).

Record ZodIssue : Type := mkZodIssue {
  path : list PathKey;
  message : string
}.

(** A [z.ZodError]: its issues, and what its [message] getter returns. *)
Record ZodError : Type := mkZodError {
  issues : list ZodIssue;
  error_message : string
}.

(** What a [throw] (or a rejected promise) carries. A ZodError is an
    instance of Error too. *)
Inductive thrown : Type :=
  | ThrownError (msg : string)
  | ThrownZodError (error : ZodError)
  | ThrownValue (v : value).

(** A call either returns or throws. *)
Inductive result (A : Type) : Type :=
  | Returns (a : A)
  | Throws (e : thrown).
Arguments Returns {A} a.
Arguments Throws {A} e.

Inductive ValidationResult : Type :=
  | Success (data : value)
  | Failure (errors : ZodError).

Definition PathKey_to_string (k : PathKey) : string :=
  match k with
  | Key s => s
  | Index i => number_to_string i
  end.

(** [formatZodError]. *)
Definition formatZodError (error : ZodError) : string :=
  join ", "
    (map (fun issue =>
            let path := join "." (map PathKey_to_string (path issue)) in
            path +:+ ": " +:+ message issue)
         (issues error)).

Section Validation.

(** [schema.parse(data)] is zod's: it returns the parsed value or throws,
    a ZodError for a value that does not conform and whatever a refinement,
    a transform or a misuse of the library raises otherwise. *)
Variable parse : ZodType -> value -> result value.

(** [validateWithSchema]. *)
Definition validateWithSchema (schema : ZodType) (data : value)
  : result ValidationResult :=
  match parse schema data with
  | Returns validated => Returns (Success validated)
  | Throws (ThrownZodError error) => Returns (Failure error)
  | Throws error => Throws error
  end.

End Validation.

(* ===================================================================== *)
(** * The server ([src/core/server.ts]) *)
(* ===================================================================== *)

(** The request metadata of a context. The capabilities a context carries
    (http client, logger, environment) are the [World] below. *)
Record RequestInfo : Type := mkRequestInfo {
  id : string;
  timestamp : Z
}.

Record MCPContext : Type := mkMCPContext {
  request : option RequestInfo
}.

(** What the pipeline calls, in the order it calls it, with what each call was
    given and how it ended. *)
Inductive event : Type :=
  | PreHookCalled (index : nat) (input : value) (outcome : result (option value))
  | HandlerCalled (input : value) (outcome : result value)
  | PostHookCalled (index : nat) (input output : value)
      (outcome : result (option value)).

(** The content item [{ type: 'text', text }] and the call-tool response. *)
Record TextContent : Type := mkTextContent {
  content_type : string;
  text : option string
}.

Record CallToolResult : Type := mkCallToolResult {
  content : list TextContent;
  isError : option bool
}.

(** An entry of the list-tools response (the SDK's [Tool]). *)
Record Tool : Type := mkTool {
  Tool_name : string;
  Tool_description : string;
  Tool_inputSchema : JSONSchema
}.

Record CallToolRequest : Type := mkCallToolRequest {
  params_name : string;
  params_arguments : value;
  (** [request.params._meta?.requestId] *)
  params_meta_requestId : value
}.

Section Server.

(** Everything a handler or a hook can read and change besides its
    arguments. *)
Variable World : Type.
Variable parse : ZodType -> value -> result value.

(** Computations of the request handler: they may throw, they change the
    world, and they leave the events of the calls they made. *)
Definition M (A : Type) : Type := World -> result A * World * list event.

Definition ret {A : Type} (a : A) : M A := fun w => (Returns a, w, []).

Definition bind {A B : Type} (m : M A) (k : A -> M B) : M B :=
  fun w =>
    match m w with
    | (Returns a, w1, evs1) =>
        let '(r, w2, evs2) := k a w1 in (r, w2, (evs1 ++ evs2)%list)
    | (Throws e, w1, evs1) => (Throws e, w1, evs1)
    end.

(** [try { body } catch (error) { handler }]. *)
Definition try_catch {A : Type} (body : M A) (handler : thrown -> M A) : M A :=
  fun w =>
    match body w with
    | (Returns a, w1, evs1) => (Returns a, w1, evs1)
    | (Throws e, w1, evs1) =>
        let '(r, w2, evs2) := handler e w1 in (r, w2, (evs1 ++ evs2)%list)
    end.

(** A call that touches nothing. *)
Definition lift {A : Type} (r : result A) : M A := fun w => (r, w, []).

Notation "'let*' x := m 'in' k" := (bind m (fun x => k))
  (at level 10, x name, m at level 100, k at level 200).

(** A pre-handler hook resolves to nothing ([None]) or to [{ input }]; a
    post-handler hook to nothing or to [{ output }]. Values are immutable
    here: a hook acts on the world and on what it returns, not on the object
    it is given. *)
Definition PreHandlerHook : Type :=
  MCPContext -> value -> World -> result (option value) * World.
Definition PostHandlerHook : Type :=
  MCPContext -> value -> value -> World -> result (option value) * World.
Definition ToolHandler : Type :=
  value -> MCPContext -> World -> result value * World.

Record MCPToolDefinition : Type := mkMCPToolDefinition {
  name : string;
  description : option string;
  inputSchema : ZodType;
  outputSchema : ZodType;
  handler : ToolHandler;
  metadata : option (list (string * value));
  preHandler : option (list PreHandlerHook);
  postHandler : option (list PostHandlerHook)
}.

(** [await hook(ctx, input)], [await tool.handler({ input, ctx })] and
    [await hook(ctx, input, output)]. *)
Definition call_preHandler (index : nat) (hook : PreHandlerHook)
    (ctx : MCPContext) (input : value) : M (option value) :=
  fun w => let '(r, w') := hook ctx input w in (r, w', [PreHookCalled index input r]).

Definition call_handler (tool : MCPToolDefinition) (input : value)
    (ctx : MCPContext) : M value :=
  fun w => let '(r, w') := handler tool input ctx w in (r, w', [HandlerCalled input r]).

Definition call_postHandler (index : nat) (hook : PostHandlerHook)
    (ctx : MCPContext) (input output : value) : M (option value) :=
  fun w =>
    let '(r, w') := hook ctx input output w in
    (r, w', [PostHookCalled index input output r]).

(** ** The registry *)

(** [tools.find((t) => t.name === name)]. *)
Definition find_tool (tools : list MCPToolDefinition) (n : string)
  : option MCPToolDefinition :=
  List.find (fun t => String.eqb (name t) n) tools.

(** [registerTool]: the outcome and the [tools] array afterwards. *)
Definition registerTool (tool : MCPToolDefinition) (tools : list MCPToolDefinition)
  : result unit * list MCPToolDefinition :=
  match find_tool tools (name tool) with
  | Some _ =>
      (Throws (ThrownError
                 ("Tool with name " +:+ dquote +:+ name tool +:+ dquote
                    +:+ " already registered")),
       tools)
  | None => (Returns tt, (tools ++ [tool])%list)
  end.

(** A run of [registerTool] calls on a new server; a call that throws
    leaves the array as it was and the caller goes on. *)
Definition register_all (ds : list MCPToolDefinition) : list MCPToolDefinition :=
  fold_left (fun tools d => snd (registerTool d tools)) ds [].

(** ** Listing *)

(** The handler of [ListToolsRequestSchema]. *)
Definition handleListTools (tools : list MCPToolDefinition) : list Tool :=
  map (fun tool =>
         let schema := zodToJsonSchema (inputSchema tool) in
         mkTool (name tool)
           (match description tool with
            | Some d => if truthy (VString d) then d else "Execute " +:+ name tool
            | None => "Execute " +:+ name tool
            end)
           (set_properties
              (Some (match properties schema with Some p => p | None => [] end))
              (set_type "object" schema)))
      tools.

(** ** Calling *)

(** [createContext]. *)
Definition createContext (now : Z) (requestId : option string) : MCPContext :=
  mkMCPContext
    match requestId with
    | Some rid =>
        if truthy (VString rid) then Some (mkRequestInfo rid now) else None
    | None => None
    end.

Definition text_content (body : value) : list TextContent :=
  [mkTextContent "text" (JSON_stringify body)].

(** The loop over [tool.preHandler]. *)
Fixpoint run_preHandlers (hooks : list PreHandlerHook) (index : nat)
    (ctx : MCPContext) (input : value) : M value :=
  match hooks with
  | [] => ret input
  | hook :: rest =>
      let* result := call_preHandler index hook ctx input in
      run_preHandlers rest (S index) ctx
        match result with
        | Some replacement => if truthy replacement then replacement else input
        | None => input
        end
  end.

(** The loop over [tool.postHandler]. *)
Fixpoint run_postHandlers (hooks : list PostHandlerHook) (index : nat)
    (ctx : MCPContext) (input output : value) : M value :=
  match hooks with
  | [] => ret output
  | hook :: rest =>
      let* result := call_postHandler index hook ctx input output in
      run_postHandlers rest (S index) ctx input
        match result with
        | Some replacement => if truthy replacement then replacement else output
        | None => output
        end
  end.

(** [error instanceof Error ? error.message : String(error)]. *)
Definition fault_message (error : thrown) : string :=
  match error with
  | ThrownError msg => msg
  | ThrownZodError e => error_message e
  | ThrownValue v => String_ v
  end.

Definition tool_not_found (n : string) : CallToolResult :=
  mkCallToolResult
    (text_content
       (VObject [("error", VString ("Tool " +:+ dquote +:+ n +:+ dquote +:+ " not found"))]))
    (Some true).

Definition validation_failed (what : string) (errors : ZodError) : CallToolResult :=
  mkCallToolResult
    (text_content
       (VObject [("error", VString what);
                 ("details", VString (formatZodError errors))]))
    (Some true).

Definition execution_failed (error : thrown) : CallToolResult :=
  mkCallToolResult
    (text_content
       (VObject [("error", VString "Tool execution failed");
                 ("message", VString (fault_message error))]))
    (Some true).

(** The body of the [try] block (the logger calls are left out). *)
Definition invoke (tool : MCPToolDefinition) (now : Z) (request : CallToolRequest)
  : M CallToolResult :=
  let args := params_arguments request in
  let requestId := params_meta_requestId request in
  let ctx :=
    createContext now
      match requestId with VString rid => Some rid | _ => None end in
  let* inputValidation := lift (validateWithSchema parse (inputSchema tool) args) in
  match inputValidation with
  | Failure errors => ret (validation_failed "Input validation failed" errors)
  | Success data =>
      let* input := match preHandler tool with
                    | Some hooks => run_preHandlers hooks 0 ctx data
                    | None => ret data
                    end in
      let* output := call_handler tool input ctx in
      let* outputValidation :=
        lift (validateWithSchema parse (outputSchema tool) output) in
      match outputValidation with
      | Failure errors => ret (validation_failed "Output validation failed" errors)
      | Success data =>
          let* output := match postHandler tool with
                         | Some hooks => run_postHandlers hooks 0 ctx input data
                         | None => ret data
                         end in
          ret (mkCallToolResult (text_content output) None)
      end
  end.

(** The handler of [CallToolRequestSchema]. *)
Definition handleCallTool (tools : list MCPToolDefinition) (now : Z)
    (request : CallToolRequest) : M CallToolResult :=
  let name := params_name request in
  match find_tool tools name with
  | None => ret (tool_not_found name)
  | Some tool =>
      try_catch (invoke tool now request)
        (fun error => ret (execution_failed error))
  end.

End Server.

Arguments name {World} _.
Arguments description {World} _.
Arguments inputSchema {World} _.
Arguments outputSchema {World} _.
Arguments handler {World} _.
Arguments preHandler {World} _.
Arguments postHandler {World} _.
Arguments ret {World A} _.
Arguments lift {World A} _.
Arguments find_tool {World} _ _.
Arguments registerTool {World} _ _.
Arguments register_all {World} _.
Arguments handleListTools {World} _.
Arguments run_preHandlers {World} _ _ _ _.
Arguments run_postHandlers {World} _ _ _ _ _.
Arguments call_preHandler {World} _ _ _ _.
Arguments call_postHandler {World} _ _ _ _ _.
Arguments call_handler {World} _ _ _.
Arguments invoke {World} _ _ _ _.
Arguments handleCallTool {World} _ _ _ _.

(* ===================================================================== *)
(** * Built-in middleware ([src/core/server.ts], second part) *)
(* ===================================================================== *)

(** ** The rate limiter *)

Module RateLimiter.

(** The fields of the class: the [requests] map and the two constructor
    parameters. Timestamps are [Date.now()] values, in milliseconds. *)
Record t : Type := mk {
  requests : gmap string (list Z);
  max : Z;
  windowMs : Z
}.

(** [new RateLimiter(max, windowMs)]. *)
Definition new (max windowMs : Z) : t := mk ∅ max windowMs.

(** [check(key)], with the value [Date.now()] returns as [now]. *)
Definition check (key : string) (now : Z) (this : t) : bool * t :=
  let requests := default [] (requests this !! key) in
  let validRequests := filter (fun time => now - time < windowMs this) requests in
  if (max this <=? Z.of_nat (length validRequests))%Z then (false, this)
  else
    let validRequests := (validRequests ++ [now])%list in
    (true, mk (<[key := validRequests]> (RateLimiter.requests this))
              (max this) (windowMs this)).

(** [reset(key)]. *)
Definition reset (key : string) (this : t) : t :=
  mk (delete key (requests this)) (max this) (windowMs this).

(** The calls a limiter can receive. *)
Inductive op : Type :=
  | Check (key : string) (now : Z)
  | Reset (key : string).

Definition step (this : t) (o : op) : t :=
  match o with
  | Check key now => snd (check key now this)
  | Reset key => reset key this
  end.

(** The limiter after a sequence of calls. *)
Definition run (ops : list op) (this : t) : t := fold_left step ops this.

(** The check as the specification words it: entries older than
    [now - windowLength] are discarded, and the call is accepted iff fewer
    than [max] entries remain. *)
Definition check_discarding_older (key : string) (now : Z) (this : t) : bool * t :=
  let remaining :=
    filter (fun time => ¬ (time < now - windowMs this))
           (default [] (requests this !! key)) in
  if (Z.of_nat (length remaining) <? max this)%Z
  then (true, mk (<[key := (remaining ++ [now])%list]> (requests this))
                 (max this) (windowMs this))
  else (false, this).

(** The entries a check keeps: those strictly younger than the window. *)
Definition valid_at (now : Z) (this : t) (key : string) : list Z :=
  filter (fun time => now - windowMs this < time)
         (default [] (requests this !! key)).

(** The bound on every stored list. *)
Definition bounded (this : t) : Prop :=
  forall key l, requests this !! key = Some l -> Z.of_nat (length l) <= max this.

End RateLimiter.

(** ** Authentication *)

Inductive AuthType : Type := apiKey | bearer | custom.

Definition AuthType_to_string (t : AuthType) : string :=
  match t with
  | apiKey => "apiKey"
  | bearer => "bearer"
  | custom => "custom"
  end.

(** A header is a string or an array of strings; an absent header is
    [undefined]. *)
Inductive HeaderValue : Type :=
  | HeaderString (s : string)
  | HeaderArray (ss : list string).

Record GenericRequest : Type := mkGenericRequest {
  ip : option string;
  method : option string;
  headers : gmap string HeaderValue
}.

Record AuthOptions : Type := mkAuthOptions {
  auth_type : AuthType;
  headerName : option string;
  (** [validate(token, ctx)], awaited: it resolves to a boolean or rejects. *)
  validate : option (string -> result bool)
}.

(** What a middleware did: the status and the JSON body it set on the
    response, how often it called [next], the tokens it passed to [validate],
    and whether it returned or threw. *)
Record MiddlewareRun : Type := mkMiddlewareRun {
  statusCode : option Z;
  jsonBody : option value;
  next_calls : nat;
  validate_calls : list string;
  outcome : result unit
}.

(** [res.status(code).json({ error, message }); return]. *)
Definition reject (code : Z) (error msg : string) (validated : list string)
  : MiddlewareRun :=
  mkMiddlewareRun (Some code)
    (Some (VObject [("error", VString error); ("message", VString msg)]))
    0 validated (Returns tt).

Definition lower_char (c : ascii) : ascii :=
  let n := N_of_ascii c in
  if ((65 <=? n) && (n <=? 90))%N then ascii_of_N (n + 32) else c.

(** [s.toLowerCase()], on ASCII letters. *)
Fixpoint toLowerCase (s : string) : string :=
  match s with
  | EmptyString => EmptyString
  | String c rest => String (lower_char c) (toLowerCase rest)
  end.

(** [Array.isArray(h) ? h[0] : h]. *)
Definition first_header (h : option HeaderValue) : option string :=
  match h with
  | Some (HeaderString s) => Some s
  | Some (HeaderArray ss) => head ss
  | None => None
  end.

(** The middleware [createAuthMiddleware(options)] returns, run on a
    request. *)
Definition createAuthMiddleware (options : AuthOptions) (req : GenericRequest)
  : MiddlewareRun :=
  let token : option string :=
    match auth_type options with
    | apiKey =>
        let headerName := default "x-api-key"
                            (match headerName options with
                             | Some h => if truthy (VString h) then Some h else None
                             | None => None
                             end) in
        let headerValue := headers req !! toLowerCase headerName in
        first_header headerValue
    | bearer =>
        let authHeader := headers req !! "authorization" in
        let authHeaderStr := first_header authHeader in
        match authHeaderStr with
        | Some str =>
            if String.prefix "Bearer " str
            then Some (String.substring 7 (String.length str - 7) str)
            else None
        | None => None
        end
    | custom => None
    end in
  match token with
  | Some tok =>
      if truthy (VString tok) then
        match validate options with
        | Some validate =>
            match validate tok with
            | Returns isValid =>
                if isValid then mkMiddlewareRun None None 1 [tok] (Returns tt)
                else reject 401 "Authentication failed" "Invalid token" [tok]
            | Throws e => mkMiddlewareRun None None 0 [tok] (Throws e)
            end
        | None => mkMiddlewareRun None None 1 [] (Returns tt)
        end
      else reject 401 "Authentication required"
             ("Missing " +:+ AuthType_to_string (auth_type options) +:+ " token") []
  | None =>
      reject 401 "Authentication required"
        ("Missing " +:+ AuthType_to_string (auth_type options) +:+ " token") []
  end.

(* ===================================================================== *)
(** * Fixtures *)
(* ===================================================================== *)

(** A stand-in for zod's [parse] on a few schemas: a string schema accepts
    strings and throws a ZodError otherwise; a schema with a refinement that
    throws ([z.any().refine(() => { throw new Error(...) })], a ZodEffects)
    lets the Error through; every other schema here accepts its input. *)
Definition fixture_parse (schema : ZodType) (data : value) : result value :=
  match schema with
  | ZodString _ =>
      match data with
      | VString _ => Returns data
      | _ =>
          Throws (ThrownZodError
                    (mkZodError
                       [mkZodIssue [] ("Expected string, received " +:+ typeof data)]
                       "Invalid input"))
      end
  | ZodOther "ZodEffects" => Throws (ThrownError "refinement failed")
  | _ => Returns data
  end.

(** [input[k]] on a plain object. *)
Definition member (k : string) (v : value) : value :=
  match v with
  | VObject ms =>
      match List.find (fun kv => String.eqb (fst kv) k) ms with
      | Some kv => snd kv
      | None => VUndefined
      end
  | _ => VUndefined
  end.

(** The demo server's two tools, with a world that holds nothing. The
    [formal] field of [greet] is [z.boolean().optional().default(false)], a
    ZodDefault. *)
Definition greet : MCPToolDefinition unit :=
  mkMCPToolDefinition unit "greet" (Some "Greet a user by name")
    (ZodObject [("name", ZodString []); ("formal", ZodOther "ZodDefault")])
    (ZodObject [("message", ZodString []); ("timestamp", ZodString [])])
    (fun input ctx w =>
       (Returns
          (VObject
             [("message",
               VString ((if truthy (member "formal" input) then "Good day" else "Hello")
                          +:+ ", " +:+ String_ (member "name" input) +:+ "!"));
              ("timestamp", VString "1970-01-01T00:00:00.000Z")]),
        w))
    None (Some []) (Some []).

(** [calculate], on integer operands. *)
Definition calculate : MCPToolDefinition unit :=
  mkMCPToolDefinition unit "calculate" (Some "Perform basic mathematical operations")
    (ZodObject [("operation", ZodEnum ["add"; "subtract"; "multiply"; "divide"]);
                ("a", ZodNumber []); ("b", ZodNumber [])])
    (ZodObject [("result", ZodNumber []); ("operation", ZodString [])])
    (fun input ctx w =>
       match member "operation" input, member "a" input, member "b" input with
       | VString op, VNumber a, VNumber b =>
           let operation :=
             VString (number_to_string a +:+ " " +:+ op +:+ " " +:+ number_to_string b) in
           if String.eqb op "divide" && (b =? 0)%Z
           then (Throws (ThrownError "Division by zero"), w)
           else
             (Returns
                (VObject
                   [("result",
                     VNumber (if String.eqb op "add" then a + b
                              else if String.eqb op "subtract" then a - b
                              else if String.eqb op "multiply" then a * b
                              else if String.eqb op "divide" then a / b
                              else 0));
                    ("operation", operation)]),
              w)
       | _, _, _ => (Returns (VObject [("result", VNumber 0)]), w)
       end)
    None (Some []) (Some []).

(** A tool with no description and a string for input. *)
Definition ping : MCPToolDefinition unit :=
  mkMCPToolDefinition unit "ping" None (ZodString []) (ZodString [])
    (fun input ctx w => (Returns input, w)) None None None.

(** Two pre-handler hooks: the first replaces the input by the number it is
    given, the second returns nothing. *)
Definition replace_by (v : value) : PreHandlerHook unit :=
  fun ctx input w => (Returns (Some v), w).
Definition observe_only : PreHandlerHook unit :=
  fun ctx input w => (Returns None, w).

(** A tool whose input is any value and whose hooks are the two above. *)
Definition hooked (replacement : value) : MCPToolDefinition unit :=
  mkMCPToolDefinition unit "hooked" None (ZodOther "ZodAny") (ZodOther "ZodAny")
    (fun input ctx w => (Returns input, w)) None
    (Some [replace_by replacement; observe_only]) (Some []).

(** The calls of the fixtures. *)
Definition divide_by_zero : CallToolRequest :=
  mkCallToolRequest "calculate"
    (VObject [("operation", VString "divide"); ("a", VNumber 10); ("b", VNumber 0)])
    VUndefined.

Definition ping_with_number : CallToolRequest :=
  mkCallToolRequest "ping" (VNumber 5) (VString "req-1").

Definition call_hooked : CallToolRequest :=
  mkCallToolRequest "hooked" (VObject [("n", VNumber 5)]) VUndefined.

(** ** Auxiliary definitions of the statements *)

(** The loop of the object branch of [zodToJsonSchema], by itself. *)
Fixpoint object_entries (es : list (string * ZodType))
    (properties : list (string * JSONSchema)) (required : list string)
  : list (string * JSONSchema) * list string :=
  match es with
  | [] => (properties, required)
  | (key, value) :: rest =>
      object_entries rest
        (obj_set properties key (zodToJsonSchema value))
        (if instanceof_ZodOptional value then required else (required ++ [key])%list)
  end.

(** The names of a shape whose schema is not an Optional, in shape order. *)
Definition required_names (shape : list (string * ZodType)) : list string :=
  map fst (filter (fun kv => instanceof_ZodOptional (snd kv) = false) shape).

(** Each property translated, in shape order. *)
Definition translated_properties (shape : list (string * ZodType))
  : list (string * JSONSchema) :=
  map (fun kv => (fst kv, zodToJsonSchema (snd kv))) shape.

(** The fault a call ended with, if it threw. *)
Definition raised (ev : event) : option thrown :=
  match ev with
  | PreHookCalled _ _ (Throws e) => Some e
  | HandlerCalled _ (Throws e) => Some e
  | PostHookCalled _ _ _ (Throws e) => Some e
  | _ => None
  end.

(** The calls that are given the input: pre-handler hooks and the handler. *)
Definition is_observer (ev : event) : bool :=
  match ev with
  | PreHookCalled _ _ _ | HandlerCalled _ _ => true
  | PostHookCalled _ _ _ _ => false
  end.

(** The input a call was given. *)
Definition observed_input (ev : event) : value :=
  match ev with
  | PreHookCalled _ input _ => input
  | HandlerCalled input _ => input
  | PostHookCalled _ input _ _ => input
  end.

(** The [input] of the object a pre-handler hook resolved to, if any. *)
Definition returned_input (ev : event) : option value :=
  match ev with
  | PreHookCalled _ _ (Returns (Some v)) => Some v
  | _ => None
  end.

(** The place of a call among those given the input of a tool with [n]
    pre-handler hooks: a hook's index, and [n] for the handler. *)
Definition place (n : nat) (ev : event) : nat :=
  match ev with
  | PreHookCalled index _ _ => index
  | HandlerCalled _ _ => n
  | PostHookCalled index _ _ _ => (n + 1 + index)%nat
  end.

(** No character of [s] is escaped in a JSON string literal. *)
Fixpoint plain (s : string) : bool :=
  match s with
  | EmptyString => true
  | String c rest =>
      let n := N_of_ascii c in
      negb (n =? 34)%N && negb (n =? 92)%N && negb (n <? 32)%N && plain rest
  end.

(** A run in which every call that threw is the fault the run ended with. *)
Definition faithful {World A : Type} (r : result A * World * list event) : Prop :=
  forall ev e, ev ∈ r.2 -> raised ev = Some e -> r.1.1 = Throws e.

(** The input after a pre-handler hook whose result is [returned]: the
    guard [result && result.input] of the loop. *)
Definition next_input (input : value) (returned : option value) : value :=
  match returned with
  | Some v => if truthy v then v else input
  | None => input
  end.

(** Calls given the input, from place [i] on, each observing what the one
    before it left. *)
Fixpoint chained (n i : nat) (input : value) (obs : list event) : Prop :=
  match obs with
  | [] => True
  | ev :: rest =>
      place n ev = i /\ observed_input ev = input
      /\ chained n (S i) (next_input input (returned_input ev)) rest
  end.

(* ===================================================================== *)
(** * More of the source *)
(* ===================================================================== *)

(** ** [defineTool] ([src/core/tool.ts]) *)

(** The configuration object [defineTool] takes. *)
Record ToolConfig (World : Type) : Type := mkToolConfig {
  config_name : string;
  config_description : option string;
  config_input : ZodType;
  config_output : ZodType;
  config_handler : ToolHandler World;
  config_metadata : option (list (string * value));
  config_preHandler : option (list (PreHandlerHook World));
  config_postHandler : option (list (PostHandlerHook World))
}.
Arguments config_name {World} _.
Arguments config_description {World} _.
Arguments config_input {World} _.
Arguments config_output {World} _.
Arguments config_handler {World} _.
Arguments config_metadata {World} _.
Arguments config_preHandler {World} _.
Arguments config_postHandler {World} _.

(** [defineTool]; an array is truthy, so [config.preHandler || []] is the
    configured array when there is one. *)
Definition defineTool {World : Type} (config : ToolConfig World)
  : MCPToolDefinition World :=
  mkMCPToolDefinition World
    (config_name config) (config_description config)
    (config_input config) (config_output config)
    (config_handler config) (config_metadata config)
    (Some (default [] (config_preHandler config)))
    (Some (default [] (config_postHandler config))).

(** ** [generateManifest] ([src/core/manifest.ts]) *)

(** [timeWindow: number | string]. *)
Inductive TimeWindow : Type :=
  | WindowMs (ms : Z)
  | WindowString (s : string).

Record RateLimitOptions : Type := mkRateLimitOptions {
  options_max : Z;
  timeWindow : TimeWindow
}.

(** [origin?: string | string[] | boolean]. *)
Inductive Origin : Type :=
  | OriginString (s : string)
  | OriginArray (ss : list string)
  | OriginBoolean (b : bool).

Record CorsOptions : Type := mkCorsOptions {
  origin : option Origin;
  methods : option (list string);
  allowedHeaders : option (list string);
  credentials : option bool;
  maxAge : option Z
}.

(** [cors?: boolean | CorsOptions]. *)
Inductive CorsSetting : Type :=
  | CorsBoolean (b : bool)
  | CorsObject (options : CorsOptions).

(** The fields of [MCPServerConfig] that [generateManifest] reads. *)
Record MCPServerConfig : Type := mkMCPServerConfig {
  server_name : string;
  version : option string;
  server_description : option string;
  framework : option string;
  cors : option CorsSetting;
  rateLimit : option RateLimitOptions;
  auth : option AuthOptions
}.

Record ManifestTool : Type := mkManifestTool {
  manifest_tool_name : string;
  manifest_tool_description : option string;
  manifest_tool_input : JSONSchema;
  manifest_tool_output : JSONSchema;
  manifest_tool_metadata : option (list (string * value))
}.

Record MCPManifest : Type := mkMCPManifest {
  manifest_name : string;
  manifest_version : string;
  manifest_description : option string;
  manifest_tools : list ManifestTool;
  manifest_metadata : list (string * value)
}.

(** [a || b] on optional strings: [a] when it is a non-empty string. *)
Definition or_string (a : option string) (b : string) : string :=
  match a with
  | Some s => if truthy (VString s) then s else b
  | None => b
  end.

(** [generateManifest]; [meta] is the source's [metadata] object. *)
Definition generateManifest {World : Type} (config : MCPServerConfig)
    (tools : list (MCPToolDefinition World)) : MCPManifest :=
  let meta := [("framework", VString (or_string (framework config) "mcp-sdk-ts"))] in
  let meta :=
    match auth config with
    | Some a => obj_set meta "authType" (VString (AuthType_to_string (auth_type a)))
    | None => meta
    end in
  let meta :=
    match rateLimit config with
    | Some rl =>
        obj_set
          (obj_set meta "rateLimitMax" (VNumber (options_max rl)))
          "rateLimitWindow"
          (VString match timeWindow rl with
                   | WindowString s => s
                   | WindowMs ms => number_to_string ms +:+ "ms"
                   end)
    | None => meta
    end in
  let meta :=
    match cors config with
    | Some (CorsBoolean false) | None => meta
    | Some _ => obj_set meta "corsEnabled" (VBool true)
    end in
  mkMCPManifest (server_name config)
    (or_string (version config) "1.0.0")
    (server_description config)
    (map (fun tool =>
            mkManifestTool (name tool) (description tool)
              (zodToJsonSchema (inputSchema tool))
              (zodToJsonSchema (outputSchema tool))
              (metadata World tool))
         tools)
    meta.

(** ** Further fixtures *)

(** A pre-handler hook that rejects its input. *)
Definition too_large : PreHandlerHook unit :=
  fun ctx input w => (Throws (ThrownError "Input too large"), w).

Definition guarded : MCPToolDefinition unit :=
  mkMCPToolDefinition unit "guarded" None (ZodOther "ZodAny") (ZodOther "ZodAny")
    (fun input ctx w => (Returns input, w)) None
    (Some [too_large; observe_only]) (Some []).

Definition call_guarded : CallToolRequest :=
  mkCallToolRequest "guarded" (VObject [("data", VString "x")]) VUndefined.

Definition call_missing : CallToolRequest :=
  mkCallToolRequest "missing" (VObject []) VUndefined.

(** Two post-handler hooks: one replaces the output, one returns nothing. *)
Definition redact (v : value) : PostHandlerHook unit :=
  fun ctx input output w => (Returns (Some v), w).
Definition log_only : PostHandlerHook unit :=
  fun ctx input output w => (Returns None, w).

(** A tool that returns the [text] of its input and declares a string as
    output. *)
Definition audited : MCPToolDefinition unit :=
  mkMCPToolDefinition unit "audited" None (ZodOther "ZodAny") (ZodString [])
    (fun input ctx w => (Returns (member "text" input), w)) None
    (Some []) (Some [redact (VString "redacted"); log_only]).

Definition call_audited (text : value) : CallToolRequest :=
  mkCallToolRequest "audited" (VObject [("text", text)]) VUndefined.

(** The configuration of a tool without hooks. *)
Definition echo_config : ToolConfig unit :=
  mkToolConfig unit "echo" (Some "Echo the input") (ZodOther "ZodAny") (ZodOther "ZodAny")
    (fun input ctx w => (Returns input, w)) None None None.

Definition call_echo : CallToolRequest :=
  mkCallToolRequest "echo" (VObject [("n", VNumber 1)]) VUndefined.

(** ** [parseTimeWindow] and [createRateLimitMiddleware] ([src/core/server.ts]) *)

(** The class [\d]. *)
Definition is_digit (c : ascii) : bool :=
  let n := N_of_ascii c in (48 <=? n)%N && (n <=? 57)%N.

Fixpoint all_digits (s : string) : bool :=
  match s with
  | EmptyString => true
  | String c rest => is_digit c && all_digits rest
  end.

(** [parseInt(digits, 10)] on a string of digits, most significant first.
    The value is exact below 2^53, and so is its product with a multiplier;
    the statements about values assume that bound. *)
Fixpoint parseInt_from (acc : Z) (digits : string) : Z :=
  match digits with
  | EmptyString => acc
  | String c rest => parseInt_from (10 * acc + Z.of_N (N_of_ascii c - 48)) rest
  end.

Definition parseInt (digits : string) : Z := parseInt_from 0 digits.

(** The class [[smhd]] and the table [multipliers]. *)
Inductive TimeUnit : Type := unit_s | unit_m | unit_h | unit_d.

Definition unit_of_char (c : ascii) : option TimeUnit :=
  if Ascii.eqb c "s" then Some unit_s
  else if Ascii.eqb c "m" then Some unit_m
  else if Ascii.eqb c "h" then Some unit_h
  else if Ascii.eqb c "d" then Some unit_d
  else None.

Definition multipliers (unit : TimeUnit) : Z :=
  match unit with
  | unit_s => 1000
  | unit_m => 60 * 1000
  | unit_h => 60 * 60 * 1000
  | unit_d => 24 * 60 * 60 * 1000
  end.

(** A string without its last character, and that character. *)
Fixpoint split_last (s : string) : option (string * ascii) :=
  match s with
  | EmptyString => None
  | String c rest =>
      match split_last rest with
      | None => Some (EmptyString, c)
      | Some (init, final) => Some (String c init, final)
      end
  end.

(** [timeWindow.match(/^(\d+)([smhd])$/)]: the two groups of a match. *)
Definition match_time_window (timeWindow : string) : option (string * TimeUnit) :=
  match split_last timeWindow with
  | Some (digits, c) =>
      match unit_of_char c with
      | Some unit =>
          if negb (String.eqb digits EmptyString) && all_digits digits
          then Some (digits, unit) else None
      | None => None
      end
  | None => None
  end.

(** [parseTimeWindow]. *)
Definition parseTimeWindow (timeWindow : string) : result Z :=
  match match_time_window timeWindow with
  | None => Throws (ThrownError ("Invalid time window format: " +:+ timeWindow))
  | Some (digits, unit) =>
      let value := parseInt digits in
      Returns (value * multipliers unit)
  end.

(** The first part of [createRateLimitMiddleware]: the limiter it creates,
    or the error [parseTimeWindow] throws. *)
Definition createRateLimiter (options : RateLimitOptions) : result RateLimiter.t :=
  match timeWindow options with
  | WindowString s =>
      match parseTimeWindow s with
      | Returns windowMs => Returns (RateLimiter.new (options_max options) windowMs)
      | Throws e => Throws e
      end
  | WindowMs windowMs => Returns (RateLimiter.new (options_max options) windowMs)
  end.

(** [req.ip || forwarded || 'unknown'], where [forwarded] is the
    x-forwarded-for header, its first element when it is an array. *)
Definition rate_limit_key (req : GenericRequest) : string :=
  match ip req with
  | Some a =>
      if truthy (VString a) then a
      else or_string (first_header (headers req !! "x-forwarded-for")) "unknown"
  | None => or_string (first_header (headers req !! "x-forwarded-for")) "unknown"
  end.

(** The middleware [createRateLimitMiddleware(options)] returns, run on a
    request at time [now] with its limiter; it gives the limiter back. *)
Definition rateLimitMiddleware (options : RateLimitOptions) (req : GenericRequest)
    (now : Z) (limiter : RateLimiter.t) : MiddlewareRun * RateLimiter.t :=
  let key := rate_limit_key req in
  let '(ok, limiter) := RateLimiter.check key now limiter in
  if negb ok then
    (reject 429 "Too many requests"
       ("Rate limit exceeded. Max " +:+ number_to_string (options_max options)
          +:+ " requests per "
          +:+ match timeWindow options with
              | WindowString s => s
              | WindowMs ms => number_to_string ms
              end)
       [],
     limiter)
  else (mkMiddlewareRun None None 1 [] (Returns tt), limiter).

(** ** [createCorsMiddleware] ([src/core/server.ts]) *)

(** What the CORS middleware did: the headers it set, in order, the status
    it set, whether it ended the response and how often it called [next]. *)
Record CorsRun : Type := mkCorsRun {
  headers_set : list (string * string);
  cors_status : option Z;
  ended : bool;
  cors_next_calls : nat
}.

(** [options?.origin || '*'] and the conversion to [originStr]. *)
Definition originStr (options : option CorsOptions) : string :=
  match options with
  | Some o =>
      match origin o with
      | Some (OriginString s) => if truthy (VString s) then s else "*"
      | Some (OriginArray ss) => join ", " ss
      | Some (OriginBoolean _) => "*"
      | None => "*"
      end
  | None => "*"
  end.

(** The middleware [createCorsMiddleware(options)] returns, run on a
    request. *)
Definition createCorsMiddleware (options : option CorsOptions) (req : GenericRequest)
  : CorsRun :=
  let methods :=
    default ["GET"; "POST"; "PUT"; "DELETE"; "OPTIONS"] (options ≫= methods) in
  let allowedHeaders :=
    default ["Content-Type"; "Authorization"] (options ≫= allowedHeaders) in
  let sent :=
    [("Access-Control-Allow-Origin", originStr options);
     ("Access-Control-Allow-Methods", join ", " methods);
     ("Access-Control-Allow-Headers", join ", " allowedHeaders)] in
  let sent :=
    match options ≫= credentials with
    | Some true => (sent ++ [("Access-Control-Allow-Credentials", "true")])%list
    | _ => sent
    end in
  let sent :=
    match options ≫= maxAge with
    | Some age =>
        if truthy (VNumber age)
        then (sent ++ [("Access-Control-Max-Age", number_to_string age)])%list
        else sent
    | None => sent
    end in
  match method req with
  | Some "OPTIONS" => mkCorsRun sent (Some 204) true 0
  | _ => mkCorsRun sent None false 1
  end.

(** ** Auxiliary definitions for the translator *)

Global Instance ZodNumberCheck_eq_dec : EqDecision ZodNumberCheck.
Proof. solve_decision. Defined.

(** What a check sets, if it sets that key. *)
Definition number_minimum (c : ZodNumberCheck) : option Z :=
  match c with NumMin v => Some v | _ => None end.
Definition number_maximum (c : ZodNumberCheck) : option Z :=
  match c with NumMax v => Some v | _ => None end.
Definition string_format (c : ZodStringCheck) : option string :=
  match c with
  | StrEmail => Some "email"
  | StrUrl => Some "uri"
  | StrUuid => Some "uuid"
  | _ => None
  end.
Definition string_minLength (c : ZodStringCheck) : option Z :=
  match c with StrMin v => Some v | _ => None end.
Definition string_maxLength (c : ZodStringCheck) : option Z :=
  match c with StrMax v => Some v | _ => None end.

(** The names JSON Schema gives to types. *)
Definition json_types : list string :=
  ["object"; "string"; "number"; "integer"; "boolean"; "array"].

(** ** Auxiliary definitions for the rate limiter *)

(** Times that never go back, from [lo] on. *)
Fixpoint ascending (lo : Z) (times : list Z) : Prop :=
  match times with
  | [] => True
  | t :: rest => lo <= t /\ ascending t rest
  end.

(** One [check(key)] call at a time, on a limiter kept together with the
    times at which the checks of [key] were accepted so far. *)
Definition record_call (key : string) (st : RateLimiter.t * list Z)
    (call : string * Z) : RateLimiter.t * list Z :=
  let '(ok, this) := RateLimiter.check call.1 call.2 st.1 in
  (this, if ok && bool_decide (call.1 = key) then (st.2 ++ [call.2])%list else st.2).

(** The limiter after a sequence of checks, and the accepted times of
    [key]. *)
Definition serve (key : string) (calls : list (string * Z)) (this : RateLimiter.t)
  : RateLimiter.t * list Z :=
  fold_left (record_call key) calls (this, []).

(** The key of a call. *)
Definition op_key (o : RateLimiter.op) : string :=
  match o with
  | RateLimiter.Check key _ => key
  | RateLimiter.Reset key => key
  end.

(** ** Auxiliary definitions for the pipeline *)

(** The two loops of the [try] block, run from a world. *)
Definition pre_run {World : Type} (tool : MCPToolDefinition World)
    (ctx : MCPContext) (data : value) (w : World)
  : result value * World * list event :=
  match preHandler tool with
  | Some hooks => run_preHandlers hooks 0 ctx data w
  | None => ret data w
  end.

Definition post_run {World : Type} (tool : MCPToolDefinition World)
    (ctx : MCPContext) (input data : value) (w : World)
  : result value * World * list event :=
  match postHandler tool with
  | Some hooks => run_postHandlers hooks 0 ctx input data w
  | None => ret data w
  end.

(** The context of a call. *)
Definition context_of (now : Z) (request : CallToolRequest) : MCPContext :=
  createContext now
    match params_meta_requestId request with VString rid => Some rid | _ => None end.

Definition is_preHook (ev : event) : Prop :=
  match ev with PreHookCalled _ _ _ => True | _ => False end.

Definition is_postHook (ev : event) : Prop :=
  match ev with PostHookCalled _ _ _ _ => True | _ => False end.

Definition is_handler (ev : event) : Prop :=
  match ev with HandlerCalled _ _ => True | _ => False end.

Global Instance is_preHook_dec (ev : event) : Decision (is_preHook ev).
Proof. destruct ev; simpl; apply _. Defined.

Global Instance is_postHook_dec (ev : event) : Decision (is_postHook ev).
Proof. destruct ev; simpl; apply _. Defined.

Global Instance is_handler_dec (ev : event) : Decision (is_handler ev).
Proof. destruct ev; simpl; apply _. Defined.

(** The output a post-handler hook was given, and the [output] of the object
    it resolved to. *)
Definition observed_output (ev : event) : option value :=
  match ev with
  | PostHookCalled _ _ output _ => Some output
  | _ => None
  end.

Definition returned_output (ev : event) : option value :=
  match ev with
  | PostHookCalled _ _ _ (Returns (Some v)) => Some v
  | _ => None
  end.

Definition hook_index (ev : event) : option nat :=
  match ev with
  | PreHookCalled index _ _ => Some index
  | PostHookCalled index _ _ _ => Some index
  | HandlerCalled _ _ => None
  end.

(** Post-handler hook calls from index [i] on, all given [input], each given
    the output the one before it left. *)
Fixpoint post_chained (i : nat) (input output : value) (evs : list event) : Prop :=
  match evs with
  | [] => True
  | ev :: rest =>
      (exists r, ev = PostHookCalled i input output r)
      /\ post_chained (S i) input (next_input output (returned_output ev)) rest
  end.

(** A run in which a call that threw is the last call made. *)
Definition fault_last {World A : Type} (r : result A * World * list event) : Prop :=
  forall (i : nat) ev e,
    r.2 !! i = Some ev -> raised ev = Some e -> S i = length r.2.

(* ===================================================================== *)
(** * Properties of the rate limiter *)
(* ===================================================================== *)

Section RateLimiterFacts.

Import RateLimiter.

Lemma check_filter_eq (now : Z) (this : t) (l : list Z) :
  filter (fun time => now - time < windowMs this) l
  = filter (fun time => now - windowMs this < time) l.
Proof.
  induction l as [|x l IH]; [reflexivity|].
  rewrite !filter_cons, IH.
  destruct (decide (now - x < windowMs this)), (decide (now - windowMs this < x));
    (reflexivity || lia).
Qed.

Lemma check_unfold (key : string) (now : Z) (this : t) :
  check key now this
  = if decide (Z.of_nat (length (valid_at now this key)) < max this)
    then (true, mk (<[key := (valid_at now this key ++ [now])%list]> (requests this))
                   (max this) (windowMs this))
    else (false, this).
Proof.
  unfold check, valid_at. rewrite check_filter_eq.
  destruct (Z.leb_spec (max this)
              (Z.of_nat (length (filter (fun time => now - windowMs this < time)
                                        (default [] (requests this !! key))))));
    destruct (decide _); (reflexivity || lia).
Qed.

Lemma check_max (key : string) (now : Z) (this : t) :
  max (snd (check key now this)) = max this.
Proof. rewrite check_unfold. destruct (decide _); reflexivity. Qed.

Lemma bounded_new (m w : Z) : bounded (new m w).
Proof. intros key l H. unfold new in H. simpl in H. by rewrite lookup_empty in H. Qed.

Lemma bounded_check (key : string) (now : Z) (this : t) :
  bounded this -> bounded (snd (check key now this)).
Proof.
  intros Hb. rewrite check_unfold.
  destruct (decide _) as [Hlt|Hge]; simpl; [|exact Hb].
  intros k l. simpl. destruct (decide (key = k)) as [->|Hne].
  - rewrite lookup_insert_eq. intros [= <-]. rewrite length_app. simpl. lia.
  - rewrite lookup_insert_ne by done. apply Hb.
Qed.

Lemma bounded_reset (key : string) (this : t) :
  bounded this -> bounded (reset key this).
Proof.
  intros Hb k l. unfold reset. simpl. destruct (decide (key = k)) as [->|Hne].
  - by rewrite lookup_delete_eq.
  - rewrite lookup_delete_ne by done. apply Hb.
Qed.

Lemma bounded_run (ops : list op) (this : t) :
  bounded this -> bounded (run ops this) /\ max (run ops this) = max this.
Proof.
  revert this. induction ops as [|o ops IH]; intros this Hb; [done|].
  unfold run in *. simpl.
  destruct o as [key now|key]; simpl.
  - destruct (IH (snd (check key now this)) (bounded_check key now this Hb)) as [H1 H2].
    split; [exact H1|]. by rewrite H2, check_max.
  - destruct (IH (reset key this) (bounded_reset key this Hb)) as [H1 H2].
    split; [exact H1|]. by rewrite H2.
Qed.

End RateLimiterFacts.

Section RateLimiterClaims.

Import RateLimiter.

Lemma check_accept (key : string) (now : Z) (this : t) :
  Z.of_nat (length (valid_at now this key)) < max this ->
  check key now this
  = (true, mk (<[key := (valid_at now this key ++ [now])%list]> (requests this))
              (max this) (windowMs this)).
Proof. intros H. rewrite check_unfold. by destruct (decide _). Qed.

Lemma check_reject (key : string) (now : Z) (this : t) :
  max this <= Z.of_nat (length (valid_at now this key)) ->
  check key now this = (false, this).
Proof. intros H. rewrite check_unfold. destruct (decide _); [lia|done]. Qed.

Lemma valid_at_insert (key : string) (now : Z) (l : list Z)
    (reqs : gmap string (list Z)) (m w : Z) :
  valid_at now (mk (<[key := l]> reqs) m w) key
  = filter (fun time => now - w < time) l.
Proof. unfold valid_at. simpl. by rewrite lookup_insert_eq. Qed.

(** C4 (as amended): a check keeps exactly the timestamps strictly younger
    than the window (an entry aged exactly [windowMs] is discarded too),
    accepts iff fewer than [max] are kept, then stores the kept entries
    followed by [now], and on rejection leaves the limiter as it was. With
    [max = 2] and a window of 1000 ms, three checks of a key within 500 ms
    answer accept, accept, reject, and a check 1100 ms after the first
    accepts. *)
Theorem check_sliding_window :
  (forall (this : t) (key : string) (now : Z),
      let kept := filter (fun time => now - windowMs this < time)
                         (default [] (requests this !! key)) in
      (fst (check key now this) = true <-> Z.of_nat (length kept) < max this)
      /\ (fst (check key now this) = true ->
          snd (check key now this)
          = mk (<[key := (kept ++ [now])%list]> (requests this))
               (max this) (windowMs this))
      /\ (fst (check key now this) = false -> snd (check key now this) = this))
  /\ (forall (key : string) (t0 d1 d2 : Z),
        0 <= d1 <= 500 -> 0 <= d2 <= 500 ->
        let r1 := check key t0 (new 2 1000) in
        let r2 := check key (t0 + d1) (snd r1) in
        let r3 := check key (t0 + d2) (snd r2) in
        let r4 := check key (t0 + 1100) (snd r3) in
        [fst r1; fst r2; fst r3; fst r4] = [true; true; false; true]).
Proof.
  split.
  - intros this key now kept. fold (valid_at now this key) in kept. subst kept.
    rewrite check_unfold. destruct (decide _) as [Hlt|Hge]; simpl.
    + split; [tauto|]. split; [reflexivity|discriminate].
    + split; [split; [discriminate|tauto]|]. split; [discriminate|reflexivity].
  - intros key t0 d1 d2 Hd1 Hd2.
    assert (E1 : check key t0 (new 2 1000)
                 = (true, mk (<[key := [t0]]> ∅) 2 1000)).
    { rewrite check_accept; unfold valid_at, new; simpl;
        rewrite lookup_empty; simpl; [reflexivity|lia]. }
    rewrite E1. simpl.
    assert (E2 : check key (t0 + d1) (mk (<[key := [t0]]> ∅) 2 1000)
                 = (true, mk (<[key := [t0; t0 + d1]]> (<[key := [t0]]> ∅)) 2 1000)).
    { rewrite check_accept; rewrite valid_at_insert; simpl;
        rewrite filter_cons, filter_nil; destruct (decide _); try lia;
        [reflexivity | simpl; lia]. }
    rewrite E2. simpl.
    assert (E3 : check key (t0 + d2)
                   (mk (<[key := [t0; t0 + d1]]> (<[key := [t0]]> ∅)) 2 1000)
                 = (false, mk (<[key := [t0; t0 + d1]]> (<[key := [t0]]> ∅)) 2 1000)).
    { apply check_reject.
      rewrite valid_at_insert. simpl.
      rewrite !filter_cons, filter_nil.
      repeat (destruct (decide _); try lia). simpl. lia. }
    rewrite E3. simpl.
    assert (E4 : fst (check key (t0 + 1100)
                        (mk (<[key := [t0; t0 + d1]]> (<[key := [t0]]> ∅)) 2 1000))
                 = true).
    { rewrite check_accept; [reflexivity|].
      rewrite valid_at_insert. simpl.
      rewrite !filter_cons, filter_nil.
      repeat (destruct (decide _); try lia); simpl; lia. }
    rewrite E4. reflexivity.
Qed.

Lemma check_sliding_window_witness :
  let r1 := check "client" 0 (new 2 1000) in
  let r2 := check "client" 100 (snd r1) in
  let r3 := check "client" 200 (snd r2) in
  let r4 := check "client" 1100 (snd r3) in
  [fst r1; fst r2; fst r3; fst r4] = [true; true; false; true].
Proof.
  apply (proj2 check_sliding_window "client" 0 100 200); lia.
Defined.

(** C4, the claim as worded: with [max = 1] and a window of 1000 ms, a key
    checked at 0 and again at 1000. The entry recorded at 0 is not older than
    [now - windowMs = 0], so it would remain and the second check would
    reject; the code discards it and accepts. *)
Lemma check_boundary_counterexample :
  let after_first := snd (check "client" 0 (new 1 1000)) in
  requests after_first !! "client" = Some [0]
  /\ fst (check "client" 1000 after_first) = true
  /\ fst (check_discarding_older "client" 1000 after_first) = false.
Proof. repeat split; vm_compute; reflexivity. Qed.



End RateLimiterClaims.

(* ===================================================================== *)
(** * Properties of the authentication middleware *)
(* ===================================================================== *)

(** C10: configured with type [custom], the middleware extracts no token and
    answers every request with 401 Authentication required; it never
    calls [next] and never calls [validate], whatever the headers and the
    configured [validate] and [headerName]. *)
Theorem custom_auth_always_rejects
    (hn : option string) (v : option (string -> result bool)) (req : GenericRequest) :
  let run := createAuthMiddleware (mkAuthOptions custom hn v) req in
  statusCode run = Some 401
  /\ jsonBody run
     = Some (VObject [("error", VString "Authentication required");
                      ("message", VString "Missing custom token")])
  /\ next_calls run = 0%nat
  /\ validate_calls run = []
  /\ outcome run = Returns tt.
Proof. repeat split. Qed.

(* ===================================================================== *)
(** * Properties of the validator and of the translator *)
(* ===================================================================== *)

(** C6 (as amended): [validateWithSchema] returns a success when [parse]
    returns and a failure when [parse] throws a ZodError; it throws exactly
    what [parse] throws when that is not a ZodError. *)
Theorem validateWithSchema_outcomes
    (parse : ZodType -> value -> result value) (schema : ZodType) (data : value) :
  (forall v, parse schema data = Returns v <->
             validateWithSchema parse schema data = Returns (Success v))
  /\ (forall errors, parse schema data = Throws (ThrownZodError errors) <->
                     validateWithSchema parse schema data = Returns (Failure errors))
  /\ (forall e, (parse schema data = Throws e /\ forall errors, e <> ThrownZodError errors) <->
                validateWithSchema parse schema data = Throws e).
Proof.
  unfold validateWithSchema.
  destruct (parse schema data) as [v|[msg|errors|x]]; repeat split;
    try congruence; try (intros [H1 H2]; congruence);
    try (intros H; injection H as ->; split; congruence).
Qed.

(** C6, the claim as worded: a schema whose refinement throws makes [parse]
    throw an ordinary Error, and [validateWithSchema] throws it on. *)
Lemma validateWithSchema_rethrows :
  validateWithSchema fixture_parse (ZodOther "ZodEffects") (VString "x")
  = Throws (ThrownError "refinement failed").
Proof. reflexivity. Qed.

Lemma zodToJsonSchema_object (shape : list (string * ZodType)) :
  zodToJsonSchema (ZodObject shape)
  = mkJSONSchema "object" (Some (fst (object_entries shape [] [])))
      (if (0 <? Z.of_nat (length (snd (object_entries shape [] []))))%Z
       then Some (snd (object_entries shape [] [])) else None)
      None None None None None None None None None.
Proof.
  change (zodToJsonSchema (ZodObject shape))
    with (let '(properties, required) := object_entries shape [] [] in
          mkJSONSchema "object" (Some properties)
            (if (0 <? Z.of_nat (length required))%Z then Some required else None)
            None None None None None None None None None).
  by destruct (object_entries shape [] []).
Qed.

Lemma obj_set_fresh {A : Type} (obj : list (string * A)) (key : string) (x : A) :
  key ∉ map fst obj -> obj_set obj key x = (obj ++ [(key, x)])%list.
Proof.
  induction obj as [|[k y] obj IH]; intros Hfresh; [reflexivity|].
  simpl in *. apply not_elem_of_cons in Hfresh as [Hne Hfresh].
  destruct (String.eqb_spec k key) as [->|_]; [done|].
  by rewrite IH.
Qed.

Lemma object_entries_spec (es : list (string * ZodType))
    (properties : list (string * JSONSchema)) (required : list string) :
  NoDup (map fst properties ++ map fst es)%list ->
  object_entries es properties required
  = ((properties ++ translated_properties es)%list,
     (required ++ required_names es)%list).
Proof.
  revert properties required.
  induction es as [|[key value] es IH]; intros properties required Hnd.
  - simpl. unfold translated_properties, required_names. simpl.
    by rewrite !app_nil_r.
  - simpl in *. pose proof Hnd as Hnd'. apply NoDup_app in Hnd as (Hp & Hdisj & Hes).
    apply NoDup_cons in Hes as [Hkey Hes].
    assert (Hfresh : key ∉ map fst properties).
    { intros Hin. apply (Hdisj key Hin). left. }
    rewrite obj_set_fresh by done.
    rewrite IH.
    + unfold translated_properties, required_names. simpl.
      rewrite <- !app_assoc. simpl. f_equal.
      rewrite filter_cons. simpl.
      destruct (instanceof_ZodOptional value); simpl.
      * reflexivity.
      * by rewrite <- app_assoc.
    + rewrite map_app. simpl. rewrite <- app_assoc. simpl.
      exact Hnd'.
Qed.

(** C7: an object schema translates to type [object], its properties
    translated one by one in the order of the shape, and a [required] list of
    exactly the names whose schema is not an Optional, in that order, absent
    when there is none; an Optional translates to what its inner schema
    translates to. *)
Theorem zodToJsonSchema_object_optional (shape : list (string * ZodType)) :
  NoDup (map fst shape) ->
  zodToJsonSchema (ZodObject shape)
  = mkJSONSchema "object" (Some (translated_properties shape))
      (match required_names shape with [] => None | names => Some names end)
      None None None None None None None None None
  /\ forall inner, zodToJsonSchema (ZodOptional inner) = zodToJsonSchema inner.
Proof.
  intros Hnd. split; [|reflexivity].
  rewrite zodToJsonSchema_object, object_entries_spec by done. simpl.
  by destruct (required_names shape).
Qed.

Lemma zodToJsonSchema_object_optional_witness :
  zodToJsonSchema
    (ZodObject [("name", ZodString [StrMin 1]); ("nick", ZodOptional (ZodString []));
                ("age", ZodNullable (ZodNumber [NumInt]))])
  = mkJSONSchema "object"
      (Some [("name", set_minLength 1 (schema_of_type "string"));
             ("nick", schema_of_type "string");
             ("age", set_nullable true (schema_of_type "integer"))])
      (Some ["name"; "age"])
      None None None None None None None None None
  /\ forall inner, zodToJsonSchema (ZodOptional inner) = zodToJsonSchema inner.
Proof.
  apply (zodToJsonSchema_object_optional
           [("name", ZodString [StrMin 1]); ("nick", ZodOptional (ZodString []));
            ("age", ZodNullable (ZodNumber [NumInt]))]).
  apply (bool_decide_unpack _). vm_compute. exact I.
Defined.

(* ===================================================================== *)
(** * Properties of the registry and of the catalog *)
(* ===================================================================== *)

Section Registry.

Context {World : Type}.
Implicit Types (tool t : MCPToolDefinition World) (tools ds : list (MCPToolDefinition World)).

Lemma find_tool_Some tools (n : string) t :
  find_tool tools n = Some t -> t ∈ tools /\ name t = n.
Proof.
  unfold find_tool. intros H. apply find_some in H as [Hin Heq].
  split; [by apply list_elem_of_In|]. by apply String.eqb_eq.
Qed.

Lemma find_tool_None tools (n : string) :
  find_tool tools n = None <-> forall t, t ∈ tools -> name t <> n.
Proof.
  unfold find_tool. split.
  - intros H t Hin Heq. apply list_elem_of_In in Hin.
    pose proof (find_none _ _ H t Hin) as Hf. simpl in Hf.
    apply String.eqb_neq in Hf. contradiction.
  - intros H. destruct (List.find _ tools) as [t|] eqn:E; [|reflexivity].
    apply find_some in E as [Hin Heq]. apply String.eqb_eq in Heq.
    apply list_elem_of_In in Hin. by destruct (H t Hin).
Qed.

Lemma registerTool_names tool tools :
  NoDup (map name tools) -> NoDup (map name (snd (registerTool tool tools))).
Proof.
  intros Hnd. unfold registerTool.
  destruct (find_tool tools (name tool)) as [t|] eqn:E; simpl; [done|].
  rewrite map_app. simpl. apply NoDup_app. split; [done|]. split.
  - intros n Hn Hn'. apply list_elem_of_singleton in Hn'. subst n.
    apply list_elem_of_fmap in Hn as (t & Heq & Hin).
    pose proof (proj1 (find_tool_None tools (name tool)) E t Hin). congruence.
  - apply NoDup_singleton.
Qed.

Lemma fold_register_names ds tools :
  NoDup (map name tools) ->
  NoDup (map name (fold_left (fun tools d => snd (registerTool d tools)) ds tools)).
Proof.
  revert tools. induction ds as [|d ds IH]; intros tools Hnd; [done|].
  simpl. apply IH. by apply registerTool_names.
Qed.

Lemma register_all_names ds : NoDup (map name (register_all ds)).
Proof. apply fold_register_names. constructor. Qed.

Lemma filter_no_match {A : Type} (P : A -> Prop) `{!forall x, Decision (P x)}
    (l : list A) :
  (forall x, x ∈ l -> ~ P x) -> filter P l = [].
Proof.
  induction l as [|a l IH]; intros Hno; [reflexivity|].
  rewrite filter_cons, decide_False.
  - apply IH. intros x Hx. apply Hno. by right.
  - apply Hno. by left.
Qed.

Lemma one_entry_per_name tools t :
  NoDup (map name tools) -> t ∈ tools ->
  length (filter (fun t' => name t' = name t) tools) = 1%nat.
Proof.
  induction tools as [|a tools IH]; intros Hnd Hin.
  - by apply elem_of_nil in Hin.
  - simpl in Hnd. apply NoDup_cons in Hnd as [Ha Hnd].
    rewrite filter_cons. apply elem_of_cons in Hin as [->|Hin].
    + rewrite decide_True by done. simpl. f_equal.
      rewrite filter_no_match; [done|].
      intros t' Hin' Heq. apply Ha. rewrite <- Heq.
      apply list_elem_of_fmap. by exists t'.
    + rewrite decide_False.
      * by apply IH.
      * intros Heq. apply Ha. rewrite Heq.
        apply list_elem_of_fmap. by exists t.
Qed.

(** C5: on a registry built by [registerTool] calls, registering a tool
    whose name is taken throws the error that names it and leaves the
    registry as it was, with exactly one entry of that name; registering a
    tool with a new name puts it after the tools already there. *)
Theorem registerTool_duplicate_or_append ds tool :
  let tools := register_all ds in
  ((exists t, t ∈ tools /\ name t = name tool) ->
   registerTool tool tools
   = (Throws (ThrownError ("Tool with name " +:+ dquote +:+ name tool +:+ dquote
                             +:+ " already registered")),
      tools)
   /\ length (filter (fun t => name t = name tool) (snd (registerTool tool tools)))
      = 1%nat)
  /\ ((forall t, t ∈ tools -> name t <> name tool) ->
      registerTool tool tools = (Returns tt, (tools ++ [tool])%list)).
Proof.
  intros tools. split.
  - intros (t & Hin & Heq). unfold registerTool.
    destruct (find_tool tools (name tool)) as [t'|] eqn:E.
    + split; [reflexivity|]. simpl. rewrite <- Heq.
      apply one_entry_per_name; [apply register_all_names|done].
    + by destruct (proj1 (find_tool_None tools (name tool)) E t Hin).
  - intros Hfresh. unfold registerTool.
    by rewrite (proj2 (find_tool_None tools (name tool)) Hfresh).
Qed.

Lemma handleListTools_lookup tools (i : nat) tool :
  tools !! i = Some tool ->
  handleListTools tools !! i
  = Some (mkTool (name tool)
            (match description tool with
             | Some d => if truthy (VString d) then d else "Execute " +:+ name tool
             | None => "Execute " +:+ name tool
             end)
            (set_properties
               (Some (default [] (properties (zodToJsonSchema (inputSchema tool)))))
               (set_type "object" (zodToJsonSchema (inputSchema tool))))).
Proof.
  intros H. unfold handleListTools.
  change (@map ?A ?B ?f ?l) with (f <$> l).
  rewrite list_lookup_fmap, H. simpl. reflexivity.
Qed.

(** C8 (as amended): the catalog has one entry per registered tool, in
    registration order; an entry carries the tool's name, its description
    or, when that is missing or empty, the text Execute followed by the name,
    and the translation of its input schema with [type] set to [object] and
    [properties] set to the empty object when the translation has none,
    every other key being as translated; after registering greet then
    calculate the catalog lists greet, then calculate. *)
Theorem handleListTools_entries :
  (forall tools,
      length (handleListTools tools) = length tools
      /\ forall (i : nat) tool, tools !! i = Some tool ->
         exists entry,
           handleListTools tools !! i = Some entry
           /\ Tool_name entry = name tool
           /\ (forall d, description tool = Some d -> d <> EmptyString ->
                         Tool_description entry = d)
           /\ (description tool = None \/ description tool = Some EmptyString ->
               Tool_description entry = "Execute " +:+ name tool)
           /\ let translated := zodToJsonSchema (inputSchema tool) in
              let listed := Tool_inputSchema entry in
              type listed = "object"
              /\ properties listed = Some (default [] (properties translated))
              /\ required listed = required translated
              /\ items listed = items translated
              /\ enum listed = enum translated
              /\ (minimum listed, maximum listed) = (minimum translated, maximum translated)
              /\ (minLength listed, maxLength listed)
                 = (minLength translated, maxLength translated)
              /\ format listed = format translated
              /\ nullable listed = nullable translated
              /\ const listed = const translated)
  /\ (forall g c : MCPToolDefinition World,
         name g = "greet" -> name c = "calculate" ->
         map Tool_name (handleListTools (register_all [g; c])) = ["greet"; "calculate"]).
Proof.
  split.
  - intros tools. split; [apply length_map|].
    intros i tool Hi. eexists. split; [by apply handleListTools_lookup|].
    simpl. split; [reflexivity|]. split; [|split; [|by repeat split]].
    + intros d -> Hd. simpl. destruct d; [done|reflexivity].
    + intros [->| ->]; reflexivity.
  - intros g c Hg Hc. unfold register_all. simpl.
    unfold registerTool, find_tool. simpl.
    rewrite Hg, Hc. simpl. by rewrite Hg, Hc.
Qed.

End Registry.

Lemma registerTool_duplicate_or_append_witness :
  (registerTool greet [greet; calculate]
   = (Throws (ThrownError ("Tool with name " +:+ dquote +:+ "greet" +:+ dquote
                             +:+ " already registered")),
      [greet; calculate])
   /\ length (filter (fun t => name t = "greet")
                (snd (registerTool greet [greet; calculate]))) = 1%nat)
  /\ registerTool ping [greet; calculate] = (Returns tt, [greet; calculate; ping]).
Proof.
  split.
  - apply (proj1 (registerTool_duplicate_or_append [greet; calculate] greet)).
    exists greet. split; [apply list_elem_of_here|reflexivity].
  - apply (proj2 (registerTool_duplicate_or_append [greet; calculate] ping)).
    intros t Ht. change (register_all [greet; calculate]) with [greet; calculate] in Ht.
    apply elem_of_cons in Ht as [->|Ht]; [discriminate|].
    apply elem_of_cons in Ht as [->|Ht]; [discriminate|].
    by apply elem_of_nil in Ht.
Defined.

Lemma handleListTools_entries_witness :
  map Tool_name (handleListTools (register_all [greet; calculate]))
  = ["greet"; "calculate"].
Proof.
  apply (proj2 handleListTools_entries greet calculate); reflexivity.
Defined.

(** C8, the claim as worded: a tool registered without a description is
    listed with one, and its translated schema gains [properties]. *)
Lemma handleListTools_fallback_counterexample :
  description ping = None
  /\ properties (zodToJsonSchema (inputSchema ping)) = None
  /\ handleListTools [ping]
     = [mkTool "ping" "Execute ping"
          (set_properties (Some []) (schema_of_type "object"))].
Proof. repeat split. Qed.

(* ===================================================================== *)
(** * Properties of the invocation pipeline *)
(* ===================================================================== *)

Lemma append_cons (x : ascii) (a b : string) :
  String x a +:+ b = String x (a +:+ b).
Proof. reflexivity. Qed.

Lemma append_assoc (a b c : string) : (a +:+ b) +:+ c = a +:+ b +:+ c.
Proof.
  induction a as [|x a IH]; [reflexivity|]. by rewrite !append_cons, IH.
Qed.

Lemma append_nil_r (a : string) : a +:+ EmptyString = a.
Proof.
  induction a as [|x a IH]; [reflexivity|]. by rewrite append_cons, IH.
Qed.

Lemma includes_refl (s : string) : includes s s.
Proof. exists EmptyString, EmptyString. simpl. by rewrite append_nil_r. Qed.

Lemma includes_app_r (p text s : string) : includes text s -> includes (p +:+ text) s.
Proof.
  intros (pre & post & ->). exists (p +:+ pre), post. by rewrite append_assoc.
Qed.

Lemma includes_app_l (p text s : string) : includes text s -> includes (text +:+ p) s.
Proof.
  intros (pre & post & ->). exists pre, (post +:+ p). by rewrite !append_assoc.
Qed.

Lemma escape_char_plain (c : ascii) :
  let n := N_of_ascii c in
  negb (n =? 34)%N && negb (n =? 92)%N && negb (n <? 32)%N = true ->
  escape_char c = String c EmptyString.
Proof.
  intros n H. unfold escape_char. fold n.
  apply andb_prop in H as [H H3]. apply andb_prop in H as [H1 H2].
  apply negb_true_iff in H1, H2, H3. rewrite H1, H2, H3.
  apply N.ltb_ge in H3.
  repeat match goal with
         | |- context [(n =? ?k)%N] =>
             destruct (N.eqb_spec n k); [lia|]
         end.
  reflexivity.
Qed.

Lemma escape_string_plain (s : string) : plain s = true -> escape_string s = s.
Proof.
  induction s as [|c s IH]; intros H; [reflexivity|].
  simpl in H. apply andb_prop in H as [Hc Hs].
  simpl. rewrite (escape_char_plain c Hc), IH by done. reflexivity.
Qed.

Lemma includes_quoted (s : string) :
  plain s = true -> includes (QuoteJSONString s) s.
Proof.
  intros H. unfold QuoteJSONString. rewrite escape_string_plain by done.
  apply includes_app_r, includes_app_l, includes_refl.
Qed.

Lemma includes_trans (a b c : string) : includes a b -> includes b c -> includes a c.
Proof.
  intros (p1 & q1 & ->) (p2 & q2 & ->).
  apply includes_app_r, includes_app_l, includes_app_r, includes_app_l, includes_refl.
Qed.

(** The text of an error body: an object of two strings. *)
Lemma stringify_error_body (error key detail : string) :
  exists body,
    JSON_stringify (VObject [("error", VString error); (key, VString detail)])
    = Some body
    /\ includes body (QuoteJSONString error)
    /\ includes body (QuoteJSONString detail).
Proof.
  exists ("{" +:+ newline +:+ gap
            +:+ ((QuoteJSONString "error" +:+ ": " +:+ QuoteJSONString error)
                   +:+ ("," +:+ newline +:+ gap)
                   +:+ (QuoteJSONString key +:+ ": " +:+ QuoteJSONString detail))
            +:+ newline +:+ EmptyString +:+ "}").
  split; [reflexivity|]. split.
  - do 3 apply includes_app_r. do 2 apply includes_app_l.
    do 2 apply includes_app_r. apply includes_refl.
  - do 3 apply includes_app_r. apply includes_app_l.
    do 4 apply includes_app_r. apply includes_refl.
Qed.

Section Pipeline.

Context {World : Type} (parse : ZodType -> value -> result value).
Implicit Types (tool : MCPToolDefinition World) (tools : list (MCPToolDefinition World)).
Implicit Types (w : World) (ctx : MCPContext).

Lemma faithful_ret {A : Type} (a : A) w : faithful (ret a w).
Proof. intros ev e Hin. by apply elem_of_nil in Hin. Qed.

Lemma faithful_lift {A : Type} (r : result A) w : faithful (lift r w).
Proof. intros ev e Hin. by apply elem_of_nil in Hin. Qed.

Lemma faithful_bind {A B : Type} (m : M World A) (k : A -> M World B) w :
  faithful (m w) -> (forall a w', faithful (k a w')) -> faithful (bind World m k w).
Proof.
  intros Hm Hk ev e. unfold bind.
  destruct (m w) as [[[a|e0] w1] evs1] eqn:Em.
  - specialize (Hk a w1). destruct (k a w1) as [[r w2] evs2] eqn:Ek. simpl.
    intros Hin Hr. apply elem_of_app in Hin as [Hin|Hin].
    + by specialize (Hm ev e Hin Hr).
    + exact (Hk ev e Hin Hr).
  - simpl. intros Hin Hr. specialize (Hm ev e Hin Hr). simpl in Hm.
    by injection Hm as ->.
Qed.

Lemma faithful_call_preHandler (index : nat) hook ctx input w :
  faithful (call_preHandler index hook ctx input w).
Proof.
  unfold call_preHandler. destruct (hook ctx input w) as [r w'] eqn:E.
  intros ev e Hin Hr. simpl in *. apply list_elem_of_singleton in Hin. subst ev.
  simpl in Hr. destruct r; congruence.
Qed.

Lemma faithful_call_postHandler (index : nat) hook ctx input output w :
  faithful (call_postHandler index hook ctx input output w).
Proof.
  unfold call_postHandler. destruct (hook ctx input output w) as [r w'] eqn:E.
  intros ev e Hin Hr. simpl in *. apply list_elem_of_singleton in Hin. subst ev.
  simpl in Hr. destruct r; congruence.
Qed.

Lemma faithful_call_handler tool input ctx w :
  faithful (call_handler tool input ctx w).
Proof.
  unfold call_handler. destruct (handler tool input ctx w) as [r w'] eqn:E.
  intros ev e Hin Hr. simpl in *. apply list_elem_of_singleton in Hin. subst ev.
  simpl in Hr. destruct r; congruence.
Qed.

Lemma faithful_run_preHandlers hooks (index : nat) ctx input w :
  faithful (run_preHandlers hooks index ctx input w).
Proof.
  revert index input w. induction hooks as [|hook hooks IH]; intros index input w.
  - apply faithful_ret.
  - simpl. apply faithful_bind; [apply faithful_call_preHandler|].
    intros a w'. apply IH.
Qed.

Lemma faithful_run_postHandlers hooks (index : nat) ctx input output w :
  faithful (run_postHandlers hooks index ctx input output w).
Proof.
  revert index output w. induction hooks as [|hook hooks IH]; intros index output w.
  - apply faithful_ret.
  - simpl. apply faithful_bind; [apply faithful_call_postHandler|].
    intros a w'. apply IH.
Qed.

Lemma faithful_invoke tool (now : Z) request w :
  faithful (invoke parse tool now request w).
Proof.
  unfold invoke. apply faithful_bind; [apply faithful_lift|].
  intros [data|errors] w1; [|apply faithful_ret].
  apply faithful_bind.
  { destruct (preHandler tool); [apply faithful_run_preHandlers|apply faithful_ret]. }
  intros input w2. apply faithful_bind; [apply faithful_call_handler|].
  intros output w3. apply faithful_bind; [apply faithful_lift|].
  intros [data'|errors] w4; [|apply faithful_ret].
  apply faithful_bind; [|intros; apply faithful_ret].
  destruct (postHandler tool); [apply faithful_run_postHandlers|apply faithful_ret].
Qed.



Lemma chained_places (n i : nat) (input : value) (obs : list event) :
  chained n i input obs -> map (place n) obs = seq i (length obs).
Proof.
  revert i input. induction obs as [|ev obs IH]; intros i input H; [reflexivity|].
  destruct H as (Hp & _ & H). simpl. rewrite Hp. f_equal. by eapply IH.
Qed.

Lemma chained_next (n i : nat) (input : value) (obs : list event) (j : nat) ev ev' :
  chained n i input obs ->
  obs !! j = Some ev -> obs !! S j = Some ev' ->
  observed_input ev' = next_input (observed_input ev) (returned_input ev).
Proof.
  revert i input j. induction obs as [|x obs IH]; intros i input j H Hj Hj'.
  - by rewrite lookup_nil in Hj.
  - destruct H as (_ & Hx & H). destruct j as [|j].
    + simpl in Hj. injection Hj as ->. simpl in Hj'.
      destruct obs as [|y obs]; [discriminate|]. simpl in Hj'. injection Hj' as ->.
      destruct H as (_ & Hy & _). by rewrite Hy, Hx.
    + simpl in Hj, Hj'. by eapply IH.
Qed.

Lemma run_preHandlers_chained hooks (n i : nat) ctx input w (tail : list event) :
  match (run_preHandlers hooks i ctx input w).1.1 with
  | Returns final =>
      chained n (i + length hooks) final tail ->
      chained n i input ((run_preHandlers hooks i ctx input w).2 ++ tail)
  | Throws _ => chained n i input (run_preHandlers hooks i ctx input w).2
  end
  /\ filter (fun ev => is_observer ev = true) (run_preHandlers hooks i ctx input w).2
     = (run_preHandlers hooks i ctx input w).2.
Proof.
  revert i input w. induction hooks as [|hook hooks IH]; intros i input w.
  - simpl. rewrite Nat.add_0_r. done.
  - simpl. unfold bind, call_preHandler.
    destruct (hook ctx input w) as [[out|e] w1] eqn:Eh; simpl; [|done].
    specialize (IH (S i) (next_input input out) w1).
    change (match out with
            | Some replacement => if truthy replacement then replacement else input
            | None => input
            end) with (next_input input out).
    destruct (run_preHandlers hooks (S i) ctx (next_input input out) w1)
      as [[r w2] evs] eqn:Er.
    simpl in *. destruct IH as [IH1 IH2].
    assert (Hret : match out with Some v => Some v | None => None end = out).
    { by destruct out. }
    split.
    + destruct r as [final|e]; cbn [chained place observed_input app].
      * intros Htail. split; [reflexivity|]. split; [reflexivity|].
        rewrite Hret. apply IH1. by rewrite <- Nat.add_succ_comm in Htail.
      * split; [reflexivity|]. split; [reflexivity|]. by rewrite Hret.
    + rewrite filter_cons, decide_True by done. by rewrite IH2.
Qed.

Lemma run_preHandlers_hooks hooks (i : nat) ctx input w (index : nat) given out :
  PreHookCalled index given out ∈ (run_preHandlers hooks i ctx input w).2 ->
  exists hook w0,
    (i <= index)%nat /\ hooks !! (index - i)%nat = Some hook
    /\ (hook ctx given w0).1 = out.
Proof.
  revert i input w. induction hooks as [|hook hooks IH]; intros i input w Hin.
  - simpl in Hin. by apply elem_of_nil in Hin.
  - simpl in Hin. unfold bind, call_preHandler in Hin.
    destruct (hook ctx input w) as [[res|e] w1] eqn:Eh; simpl in Hin.
    + pose proof (IH (S i) (next_input input res) w1) as IH'.
      change (match res with
              | Some replacement => if truthy replacement then replacement else input
              | None => input
              end) with (next_input input res) in Hin.
      destruct (run_preHandlers hooks (S i) ctx (next_input input res) w1)
        as [[r w2] evs] eqn:Er.
      simpl in Hin. apply elem_of_cons in Hin as [Heq|Hin].
      * injection Heq as -> -> ->. exists hook, w.
        rewrite Nat.sub_diag, Eh. done.
      * 
        destruct (IH' Hin) as (h & w0 & Hle & Hl & Ho).
        exists h, w0. split; [lia|]. split; [|done].
        replace (index - i)%nat with (S (index - S i)) by lia. done.
    + apply list_elem_of_singleton in Hin. injection Hin as -> -> ->.
      exists hook, w. rewrite Nat.sub_diag, Eh. done.
Qed.

Lemma run_postHandlers_events hooks (i : nat) ctx input output w :
  Forall (fun ev => exists index a b r, ev = PostHookCalled index a b r)
         (run_postHandlers hooks i ctx input output w).2.
Proof.
  revert i output w. induction hooks as [|hook hooks IH]; intros i output w.
  - constructor.
  - simpl. unfold bind, call_postHandler.
    destruct (hook ctx input output w) as [[res|e] w1] eqn:Eh; simpl.
    + specialize (IH (S i)
                    match res with
                    | Some replacement =>
                        if truthy replacement then replacement else output
                    | None => output
                    end w1).
      destruct (run_postHandlers hooks (S i) ctx input _ w1) as [[r w2] evs].
      simpl in *. constructor; [by eexists _, _, _, _|done].
    + constructor; [by eexists _, _, _, _|constructor].
Qed.

(** The events of a call whose input is valid: those of the pre-handler
    hooks, then, when none of them threw, the handler's and those of the
    post-handler hooks. *)
Lemma invoke_events tool (now : Z) request data hooks w :
  preHandler tool = Some hooks ->
  validateWithSchema parse (inputSchema tool) (params_arguments request)
  = Returns (Success data) ->
  let ctx :=
    createContext now
      match params_meta_requestId request with VString rid => Some rid | _ => None end in
  let pre := run_preHandlers hooks 0 ctx data w in
  exists rest,
    (invoke parse tool now request w).2 = (pre.2 ++ rest)%list
    /\ match pre.1.1 with
       | Returns final =>
           exists r post,
             rest = HandlerCalled final r :: post
             /\ Forall (fun ev => exists index a b r, ev = PostHookCalled index a b r) post
       | Throws _ => rest = []
       end.
Proof.
  intros Hpre Hval ctx pre. unfold invoke, bind, lift. rewrite Hval, Hpre. simpl.
  fold ctx. fold pre.
  destruct pre as [[[final|e] w1] evs1]; simpl;
    [|exists []; by rewrite app_nil_r].
  unfold call_handler.
  destruct (handler tool final ctx w1) as [[output|e] w2]; simpl;
    [|eexists; split; [reflexivity|]; eexists _, []; split; [reflexivity|constructor]].
  destruct (validateWithSchema parse (outputSchema tool) output)
    as [[data'|errors]|e]; simpl;
    try (eexists; split; [reflexivity|]; eexists _, []; split; [reflexivity|constructor]).
  destruct (postHandler tool) as [posts|]; simpl;
    [|eexists; split; [reflexivity|]; eexists _, []; split; [reflexivity|constructor]].
  pose proof (run_postHandlers_events posts 0 ctx final data' w2) as Hpost.
  destruct (run_postHandlers posts 0 ctx final data' w2) as [[[out|e] w3] evs3]; simpl in *.
  - eexists; split; [reflexivity|]. eexists _, _. split; [reflexivity|].
    by rewrite app_nil_r.
  - eexists; split; [reflexivity|]. eexists _, _. split; [reflexivity|done].
Qed.

Lemma handleCallTool_events tools (now : Z) request tool w :
  find_tool tools (params_name request) = Some tool ->
  (handleCallTool parse tools now request w).2 = (invoke parse tool now request w).2.
Proof.
  intros Hfind. unfold handleCallTool. cbv zeta. rewrite Hfind. unfold try_catch.
  destruct (invoke parse tool now request w) as [[[r|e] w1] evs]; simpl; [done|].
  by rewrite app_nil_r.
Qed.

Lemma filter_post_events (post : list event) :
  Forall (fun ev => exists index a b r, ev = PostHookCalled index a b r) post ->
  filter (fun ev => is_observer ev = true) post = [].
Proof.
  intros H. apply filter_no_match. intros ev Hin.
  rewrite Forall_forall in H. destruct (H ev Hin) as (i & a & b & r & ->). done.
Qed.


End Pipeline.





(* ===================================================================== *)
(** * More properties of the invocation pipeline *)
(* ===================================================================== *)

Section PipelineStages.

Context {World : Type} (parse : ZodType -> value -> result value).
Implicit Types (tool : MCPToolDefinition World) (tools : list (MCPToolDefinition World)).
Implicit Types (w : World) (ctx : MCPContext).

(** The [try] block, path by path. *)
Lemma invoke_unfold tool (now : Z) request w :
  invoke parse tool now request w
  = let ctx := context_of now request in
    match validateWithSchema parse (inputSchema tool) (params_arguments request) with
    | Throws e => (Throws e, w, [])
    | Returns (Failure errors) =>
        (Returns (validation_failed "Input validation failed" errors), w, [])
    | Returns (Success data) =>
        match pre_run tool ctx data w with
        | (Throws e, w1, pres) => (Throws e, w1, pres)
        | (Returns input, w1, pres) =>
            match handler tool input ctx w1 with
            | (Throws e, w2) =>
                (Throws e, w2, (pres ++ [HandlerCalled input (Throws e)])%list)
            | (Returns output, w2) =>
                let called := HandlerCalled input (Returns output) in
                match validateWithSchema parse (outputSchema tool) output with
                | Throws e => (Throws e, w2, (pres ++ [called])%list)
                | Returns (Failure errors) =>
                    (Returns (validation_failed "Output validation failed" errors),
                     w2, (pres ++ [called])%list)
                | Returns (Success data') =>
                    match post_run tool ctx input data' w2 with
                    | (Throws e, w3, posts) =>
                        (Throws e, w3, (pres ++ called :: posts)%list)
                    | (Returns out, w3, posts) =>
                        (Returns (mkCallToolResult (text_content out) None),
                         w3, (pres ++ called :: posts)%list)
                    end
                end
            end
        end
    end.
Proof.
  unfold invoke, bind, lift, call_handler, pre_run, post_run, context_of. cbv zeta.
  destruct (validateWithSchema parse (inputSchema tool) (params_arguments request))
    as [[data|errors]|e]; [|reflexivity..].
  repeat first
    [ reflexivity
    | progress (simpl; rewrite ?app_nil_r)
    | match goal with
      | |- context [match ?x with _ => _ end] =>
          lazymatch x with
          | context [match _ with _ => _ end] => fail
          | _ => destruct x
          end
      end ].
Qed.

Lemma handleCallTool_found tools (now : Z) request tool w :
  find_tool tools (params_name request) = Some tool ->
  handleCallTool parse tools now request w
  = match invoke parse tool now request w with
    | (Returns r, w1, evs) => (Returns r, w1, evs)
    | (Throws e, w1, evs) => (Returns (execution_failed e), w1, evs)
    end.
Proof.
  intros Hfind. unfold handleCallTool. cbv zeta. rewrite Hfind. unfold try_catch.
  destruct (invoke parse tool now request w) as [[[r|e] w1] evs]; [reflexivity|].
  simpl. by rewrite app_nil_r.
Qed.

Lemma pre_run_events tool ctx data w :
  Forall is_preHook (pre_run tool ctx data w).2.
Proof.
  unfold pre_run. destruct (preHandler tool) as [hooks|]; [|constructor].
  generalize 0%nat. revert data w.
  induction hooks as [|hook hooks IH]; intros data w i; [constructor|].
  simpl. unfold bind, call_preHandler.
  destruct (hook ctx data w) as [[res|e] w1]; simpl.
  - specialize (IH (next_input data res) w1 (S i)).
    change (match res with
            | Some replacement => if truthy replacement then replacement else data
            | None => data
            end) with (next_input data res).
    destruct (run_preHandlers hooks (S i) ctx (next_input data res) w1)
      as [[r w2] evs].
    simpl in *. by constructor.
  - by repeat constructor.
Qed.

Lemma post_run_events tool ctx input data w :
  Forall is_postHook (post_run tool ctx input data w).2.
Proof.
  unfold post_run. destruct (postHandler tool) as [hooks|]; [|constructor].
  eapply Forall_impl; [apply run_postHandlers_events|].
  intros ev (i & a & b & r & ->). exact I.
Qed.

Lemma pre_run_faithful tool ctx data w : faithful (pre_run tool ctx data w).
Proof.
  unfold pre_run. destruct (preHandler tool);
    [apply faithful_run_preHandlers|apply faithful_ret].
Qed.

Lemma post_run_faithful tool ctx input data w :
  faithful (post_run tool ctx input data w).
Proof.
  unfold post_run. destruct (postHandler tool);
    [apply faithful_run_postHandlers|apply faithful_ret].
Qed.

Lemma fault_last_ret {A : Type} (a : A) w : fault_last (ret a w).
Proof. intros i ev e H. simpl in H. by rewrite lookup_nil in H. Qed.

Lemma fault_last_lift {A : Type} (r : result A) w : fault_last (lift r w).
Proof. intros i ev e H. simpl in H. by rewrite lookup_nil in H. Qed.

Lemma fault_last_bind {A B : Type} (m : M World A) (k : A -> M World B) w :
  faithful (m w) -> fault_last (m w) -> (forall a w', fault_last (k a w')) ->
  fault_last (bind World m k w).
Proof.
  intros Hf Hm Hk i ev e. unfold bind.
  destruct (m w) as [[[a|e0] w1] evs1].
  - specialize (Hk a w1). destruct (k a w1) as [[r w2] evs2]. simpl.
    intros Hl Hr. rewrite length_app.
    apply lookup_app_Some in Hl as [Hl|[Hle Hl]].
    + apply list_elem_of_lookup_2 in Hl. specialize (Hf ev e Hl Hr). discriminate.
    + specialize (Hk _ ev e Hl Hr). simpl in Hk. lia.
  - simpl. apply Hm.
Qed.

Lemma fault_last_single {A : Type} (r : result A) w (ev : event) :
  fault_last (r, w, [ev]).
Proof.
  intros i ev' e H _. simpl in *. destruct i; [reflexivity|].
  simpl in H. by rewrite lookup_nil in H.
Qed.

Lemma fault_last_run_preHandlers hooks (index : nat) ctx input w :
  fault_last (run_preHandlers hooks index ctx input w).
Proof.
  revert index input w. induction hooks as [|hook hooks IH]; intros index input w.
  - apply fault_last_ret.
  - simpl. apply fault_last_bind.
    + apply faithful_call_preHandler.
    + unfold call_preHandler. destruct (hook ctx input w). apply fault_last_single.
    + intros a w'. apply IH.
Qed.

Lemma fault_last_run_postHandlers hooks (index : nat) ctx input output w :
  fault_last (run_postHandlers hooks index ctx input output w).
Proof.
  revert index output w. induction hooks as [|hook hooks IH]; intros index output w.
  - apply fault_last_ret.
  - simpl. apply fault_last_bind.
    + apply faithful_call_postHandler.
    + unfold call_postHandler. destruct (hook ctx input output w).
      apply fault_last_single.
    + intros a w'. apply IH.
Qed.

Lemma fault_last_invoke tool (now : Z) request w :
  fault_last (invoke parse tool now request w).
Proof.
  unfold invoke. apply fault_last_bind; [apply faithful_lift|apply fault_last_lift|].
  intros [data|errors] w1; [|apply fault_last_ret].
  apply fault_last_bind.
  { destruct (preHandler tool); [apply faithful_run_preHandlers|apply faithful_ret]. }
  { destruct (preHandler tool); [apply fault_last_run_preHandlers|apply fault_last_ret]. }
  intros input w2. apply fault_last_bind.
  { apply faithful_call_handler. }
  { unfold call_handler. destruct (handler tool input _ w2). apply fault_last_single. }
  intros output w3. apply fault_last_bind; [apply faithful_lift|apply fault_last_lift|].
  intros [data'|errors] w4; [|apply fault_last_ret].
  apply fault_last_bind; [| |intros; apply fault_last_ret].
  - destruct (postHandler tool); [apply faithful_run_postHandlers|apply faithful_ret].
  - destruct (postHandler tool);
      [apply fault_last_run_postHandlers|apply fault_last_ret].
Qed.

Lemma escape_string_app (a b : string) :
  escape_string (a +:+ b) = escape_string a +:+ escape_string b.
Proof.
  induction a as [|c a IH]; [reflexivity|].
  rewrite append_cons. simpl. by rewrite IH, append_assoc.
Qed.

Lemma stringify_one_member (key s : string) :
  exists body,
    JSON_stringify (VObject [(key, VString s)]) = Some body
    /\ includes body (QuoteJSONString key)
    /\ includes body (QuoteJSONString s).
Proof.
  exists ("{" +:+ newline +:+ gap
            +:+ (QuoteJSONString key +:+ ": " +:+ QuoteJSONString s)
            +:+ newline +:+ EmptyString +:+ "}").
  split; [reflexivity|]. split.
  - do 3 apply includes_app_r. do 2 apply includes_app_l. apply includes_refl.
  - do 3 apply includes_app_r. apply includes_app_l.
    do 2 apply includes_app_r. apply includes_refl.
Qed.


(** X2: when a pre-handler hook, the handler or a post-handler hook
    throws, nothing is called after it: a call that threw is the last call of
    the request. *)
Theorem fault_is_last_call tools (now : Z) request w (i : nat) ev e :
  let evs := (handleCallTool parse tools now request w).2 in
  evs !! i = Some ev -> raised ev = Some e -> S i = length evs.
Proof.
  intros evs. unfold evs, handleCallTool. cbv zeta.
  destruct (find_tool tools (params_name request)) as [tool|] eqn:Hfind.
  - unfold try_catch. pose proof (fault_last_invoke tool now request w) as Hl.
    destruct (invoke parse tool now request w) as [[[r|e0] w1] evs1]; simpl.
    + apply Hl.
    + rewrite app_nil_r. apply Hl.
  - simpl. intros H. by rewrite lookup_nil in H.
Qed.

Lemma handler_among_stages (pres posts : list event) (called : event) a b :
  Forall is_preHook pres -> Forall is_postHook posts ->
  HandlerCalled a b ∈ (pres ++ called :: posts)%list -> HandlerCalled a b = called.
Proof.
  intros Hpre Hpost Hin. rewrite Forall_forall in Hpre, Hpost.
  apply elem_of_app in Hin as [Hin|Hin]; [destruct (Hpre _ Hin)|].
  apply elem_of_cons in Hin as [Heq|Hin]; [done|destruct (Hpost _ Hin)].
Qed.

Lemma filter_postHook_stages (pres posts : list event) (called : event) :
  Forall is_preHook pres -> Forall is_postHook posts -> is_handler called ->
  filter is_postHook (pres ++ called :: posts)%list = posts.
Proof.
  intros Hpre Hpost Hc. rewrite filter_app, filter_cons.
  rewrite (filter_no_match is_postHook pres).
  - rewrite decide_False by (destruct called; simpl in *; tauto). simpl.
    induction posts as [|ev posts IH]; [reflexivity|].
    apply Forall_cons in Hpost as [Hev Hpost].
    rewrite filter_cons, decide_True by done. by rewrite IH.
  - rewrite Forall_forall in Hpre. intros ev Hin Hp.
    specialize (Hpre ev Hin). destruct ev; simpl in *; tauto.
Qed.

(** X3: the calls of a request are calls of pre-handler hooks, then at most
    one call of the handler, then calls of post-handler hooks, and there are
    post-handler calls only after a handler call. *)
Theorem call_stages tools (now : Z) request w :
  let evs := (handleCallTool parse tools now request w).2 in
  exists pres called posts,
    evs = (pres ++ called ++ posts)%list
    /\ Forall is_preHook pres
    /\ Forall is_handler called
    /\ (length called <= 1)%nat
    /\ Forall is_postHook posts
    /\ (called = [] -> posts = []).
Proof.
  assert (Hstage : forall ev, is_handler ev -> Forall is_handler [ev])
    by (by repeat constructor).
  intros evs. unfold evs.
  destruct (find_tool tools (params_name request)) as [tool|] eqn:Hfind.
  2:{ unfold handleCallTool. cbv zeta. rewrite Hfind.
      exists [], [], []. repeat split; (done || simpl; lia). }
  rewrite (handleCallTool_events parse tools now request tool w Hfind).
  rewrite invoke_unfold. cbv zeta.
  destruct (validateWithSchema parse (inputSchema tool) (params_arguments request))
    as [[data|errors]|e]; try (exists [], [], []; repeat split; (done || simpl; lia)).
  pose proof (pre_run_events tool (context_of now request) data w) as Hpre.
  destruct (pre_run tool (context_of now request) data w)
    as [[[input|e] w1] pres]; simpl in Hpre.
  2:{ exists pres, [], []. simpl. rewrite app_nil_r.
      repeat split; (done || simpl; lia). }
  destruct (handler tool input (context_of now request) w1) as [[output|e] w2].
  2:{ exists pres, [HandlerCalled input (Throws e)], []. simpl.
      repeat split; first [done | by apply Hstage | simpl; lia]. }
  cbv zeta.
  destruct (validateWithSchema parse (outputSchema tool) output)
    as [[data'|errors]|e];
    try (exists pres, [HandlerCalled input (Returns output)], []; simpl;
         repeat split; first [done | by apply Hstage | simpl; lia]).
  pose proof (post_run_events tool (context_of now request) input data' w2) as Hpost.
  destruct (post_run tool (context_of now request) input data' w2)
    as [[[out|e] w3] posts]; simpl in Hpost;
    exists pres, [HandlerCalled input (Returns output)], posts; simpl;
    repeat split; first [done | by apply Hstage | simpl; lia].
Qed.

(** X4: when the output the handler returned fails validation against
    the output schema, the call returns the error result whose text is the
    JSON of an object with [error] Output validation failed and [details] the
    formatted issues, and no post-handler hook is called. *)
Theorem invalid_output_stops_call tools (now : Z) request tool input output errors w :
  find_tool tools (params_name request) = Some tool ->
  let run := handleCallTool parse tools now request w in
  HandlerCalled input (Returns output) ∈ run.2 ->
  validateWithSchema parse (outputSchema tool) output = Returns (Failure errors) ->
  exists response body,
    run.1.1 = Returns response
    /\ isError response = Some true
    /\ map text (content response) = [Some body]
    /\ includes body "Output validation failed"
    /\ includes body (QuoteJSONString (formatZodError errors))
    /\ forall ev, ev ∈ run.2 -> ~ is_postHook ev.
Proof.
  intros Hfind run. unfold run.
  rewrite (handleCallTool_found tools now request tool w Hfind).
  rewrite invoke_unfold. cbv zeta.
  destruct (validateWithSchema parse (inputSchema tool) (params_arguments request))
    as [[data|errors0]|e]; try (simpl; intros Hin; by apply elem_of_nil in Hin).
  pose proof (pre_run_events tool (context_of now request) data w) as Hpre.
  destruct (pre_run tool (context_of now request) data w)
    as [[[input0|e] w1] pres]; simpl in Hpre.
  2:{ simpl. intros Hin. rewrite Forall_forall in Hpre. destruct (Hpre _ Hin). }
  destruct (handler tool input0 (context_of now request) w1) as [[output0|e] w2].
  2:{ simpl. intros Hin.
      by pose proof (handler_among_stages pres [] _ _ _ Hpre (Forall_nil_2 _) Hin). }
  cbv zeta.
  destruct (validateWithSchema parse (outputSchema tool) output0)
    as [[data'|errors0]|e] eqn:Hv0.
  - pose proof (post_run_events tool (context_of now request) input0 data' w2) as Hpost.
    destruct (post_run tool (context_of now request) input0 data' w2)
      as [[[out|e] w3] posts]; simpl in Hpost; simpl; intros Hin Hval;
      pose proof (handler_among_stages pres posts _ _ _ Hpre Hpost Hin) as Heq;
      injection Heq as -> ->; congruence.
  - simpl. intros Hin Hval.
    pose proof (handler_among_stages pres [] _ _ _ Hpre (Forall_nil_2 _) Hin) as Heq.
    injection Heq as -> ->. rewrite Hv0 in Hval. injection Hval as ->.
    destruct (stringify_error_body "Output validation failed" "details"
                (formatZodError errors)) as (body & Hbody & Herr & Hdet).
    exists (validation_failed "Output validation failed" errors), body.
    split; [reflexivity|]. split; [reflexivity|].
    unfold validation_failed, text_content. simpl. rewrite Hbody.
    split; [reflexivity|]. split.
    { eapply includes_trans; [exact Herr|]. by apply includes_quoted. }
    split; [exact Hdet|].
    intros ev Hev Hp. apply elem_of_app in Hev as [Hev|Hev].
    + rewrite Forall_forall in Hpre. specialize (Hpre ev Hev).
      destruct ev; simpl in *; tauto.
    + apply list_elem_of_singleton in Hev. subst ev. exact Hp.
  - simpl. intros Hin Hval.
    pose proof (handler_among_stages pres [] _ _ _ Hpre (Forall_nil_2 _) Hin) as Heq.
    injection Heq as -> ->. congruence.
Qed.

(** X5: a response that is not an error is returned only when the
    arguments passed input validation, the handler returned, its output
    passed output validation and no hook threw. *)
Theorem success_needs_every_stage tools (now : Z) request tool response w :
  find_tool tools (params_name request) = Some tool ->
  let run := handleCallTool parse tools now request w in
  run.1.1 = Returns response ->
  isError response = None ->
  (exists data,
      validateWithSchema parse (inputSchema tool) (params_arguments request)
      = Returns (Success data))
  /\ (exists input output data',
         HandlerCalled input (Returns output) ∈ run.2
         /\ validateWithSchema parse (outputSchema tool) output
            = Returns (Success data'))
  /\ (forall ev, ev ∈ run.2 -> raised ev = None).
Proof.
  intros Hfind run. unfold run.
  rewrite (handleCallTool_found tools now request tool w Hfind).
  pose proof (faithful_invoke parse tool now request w) as Hf.
  revert Hf. rewrite invoke_unfold. cbv zeta.
  destruct (validateWithSchema parse (inputSchema tool) (params_arguments request))
    as [[data|errors0]|e]; try (simpl; intros _ [= <-]; discriminate).
  destruct (pre_run tool (context_of now request) data w)
    as [[[input0|e] w1] pres]; [|simpl; intros _ [= <-]; discriminate].
  destruct (handler tool input0 (context_of now request) w1) as [[output0|e] w2];
    [|simpl; intros _ [= <-]; discriminate].
  cbv zeta.
  destruct (validateWithSchema parse (outputSchema tool) output0)
    as [[data'|errors0]|e] eqn:Hv0; try (simpl; intros _ [= <-]; discriminate).
  destruct (post_run tool (context_of now request) input0 data' w2)
    as [[[out|e] w3] posts]; [|simpl; intros _ [= <-]; discriminate].
  simpl. intros Hf _ _. split; [by exists data|]. split.
  - exists input0, output0, data'. split; [|exact Hv0].
    apply elem_of_app. right. left.
  - intros ev Hev. destruct (raised ev) as [e|] eqn:Hr; [|reflexivity].
    specialize (Hf ev e Hev Hr). discriminate.
Qed.

Lemma run_postHandlers_chained hooks (i : nat) ctx input output w :
  post_chained i input output (run_postHandlers hooks i ctx input output w).2.
Proof.
  revert i output w. induction hooks as [|hook hooks IH]; intros i output w; [done|].
  simpl. unfold bind, call_postHandler.
  destruct (hook ctx input output w) as [[res|e] w1]; simpl.
  - specialize (IH (S i) (next_input output res) w1).
    change (match res with
            | Some replacement => if truthy replacement then replacement else output
            | None => output
            end) with (next_input output res).
    destruct (run_postHandlers hooks (S i) ctx input (next_input output res) w1)
      as [[r w2] evs].
    simpl in *. split; [by eexists|].
    replace (match res with Some v => Some v | None => None end) with res
      by (by destruct res).
    exact IH.
  - split; [by eexists|done].
Qed.

Lemma run_postHandlers_hooks hooks (i : nat) ctx input output w (index : nat) a b r :
  PostHookCalled index a b r ∈ (run_postHandlers hooks i ctx input output w).2 ->
  exists hook w0,
    (i <= index)%nat /\ hooks !! (index - i)%nat = Some hook
    /\ (hook ctx a b w0).1 = r.
Proof.
  revert i output w. induction hooks as [|hook hooks IH]; intros i output w Hin.
  - simpl in Hin. by apply elem_of_nil in Hin.
  - simpl in Hin. unfold bind, call_postHandler in Hin.
    destruct (hook ctx input output w) as [[res|e] w1] eqn:Eh; simpl in Hin.
    + pose proof (IH (S i) (next_input output res) w1) as IH'.
      change (match res with
              | Some replacement => if truthy replacement then replacement else output
              | None => output
              end) with (next_input output res) in Hin.
      destruct (run_postHandlers hooks (S i) ctx input (next_input output res) w1)
        as [[r' w2] evs] eqn:Er.
      simpl in Hin. apply elem_of_cons in Hin as [Heq|Hin].
      * injection Heq as -> -> -> ->. exists hook, w.
        rewrite Nat.sub_diag, Eh. done.
      * destruct (IH' Hin) as (h & w0 & Hle & Hl & Ho).
        exists h, w0. split; [lia|]. split; [|done].
        replace (index - i)%nat with (S (index - S i)) by lia. done.
    + apply list_elem_of_singleton in Hin. injection Hin as -> -> -> ->.
      exists hook, w. rewrite Nat.sub_diag, Eh. done.
Qed.

Lemma post_chained_index (i : nat) input output (evs : list event) :
  post_chained i input output evs ->
  map hook_index evs = map Some (seq i (length evs)).
Proof.
  revert i output. induction evs as [|ev evs IH]; intros i output H; [reflexivity|].
  destruct H as [[r ->] H]. simpl. f_equal. by eapply IH.
Qed.

Lemma post_chained_input (i : nat) input output (evs : list event) ev :
  post_chained i input output evs -> ev ∈ evs -> observed_input ev = input.
Proof.
  revert i output. induction evs as [|x evs IH]; intros i output H Hin.
  - by apply elem_of_nil in Hin.
  - destruct H as [[r ->] H]. apply elem_of_cons in Hin as [->|Hin]; [done|].
    by eapply IH.
Qed.

Lemma post_chained_next (i : nat) input output (evs : list event) (j : nat) ev ev' :
  post_chained i input output evs ->
  evs !! j = Some ev -> evs !! S j = Some ev' ->
  exists out,
    observed_output ev = Some out
    /\ observed_output ev' = Some (next_input out (returned_output ev)).
Proof.
  revert i output j. induction evs as [|x evs IH]; intros i output j H Hj Hj'.
  - by rewrite lookup_nil in Hj.
  - destruct H as [[r ->] H]. destruct j as [|j].
    + simpl in Hj. injection Hj as <-. simpl in Hj'.
      destruct evs as [|y evs]; [discriminate|]. simpl in Hj'. injection Hj' as <-.
      destruct H as [[r' ->] _]. exists output. done.
    + simpl in Hj, Hj'. by eapply IH.
Qed.



End PipelineStages.


Lemma fault_is_last_call_witness :
  (handleCallTool fixture_parse [guarded] 0 call_guarded tt).2
  = [PreHookCalled 0 (VObject [("data", VString "x")])
       (Throws (ThrownError "Input too large"))]
  /\ 1%nat = length (handleCallTool fixture_parse [guarded] 0 call_guarded tt).2.
Proof.
  split; [reflexivity|].
  apply (fault_is_last_call fixture_parse [guarded] 0 call_guarded tt 0
           (PreHookCalled 0 (VObject [("data", VString "x")])
              (Throws (ThrownError "Input too large")))
           (ThrownError "Input too large"));
    reflexivity.
Defined.

Lemma invalid_output_stops_call_witness :
  let run := handleCallTool fixture_parse [audited] 0 (call_audited (VNumber 5)) tt in
  exists response body,
    run.1.1 = Returns response
    /\ isError response = Some true
    /\ map text (content response) = [Some body]
    /\ includes body "Output validation failed"
    /\ includes body
         (QuoteJSONString
            (formatZodError
               (mkZodError [mkZodIssue [] "Expected string, received number"]
                  "Invalid input")))
    /\ forall ev, ev ∈ run.2 -> ~ is_postHook ev.
Proof.
  apply (invalid_output_stops_call fixture_parse [audited] 0
           (call_audited (VNumber 5)) audited
           (VObject [("text", VNumber 5)]) (VNumber 5)
           (mkZodError [mkZodIssue [] "Expected string, received number"]
              "Invalid input") tt).
  - reflexivity.
  - vm_compute. left.
  - reflexivity.
Defined.

Lemma success_needs_every_stage_witness :
  let run := handleCallTool fixture_parse [audited] 0
               (call_audited (VString "hello")) tt in
  (exists data,
      validateWithSchema fixture_parse (inputSchema audited)
        (params_arguments (call_audited (VString "hello")))
      = Returns (Success data))
  /\ (exists input output data',
         HandlerCalled input (Returns output) ∈ run.2
         /\ validateWithSchema fixture_parse (outputSchema audited) output
            = Returns (Success data'))
  /\ (forall ev, ev ∈ run.2 -> raised ev = None).
Proof.
  apply (success_needs_every_stage fixture_parse [audited] 0
           (call_audited (VString "hello")) audited
           (mkCallToolResult (text_content (VString "redacted")) None) tt);
    reflexivity.
Defined.



(* ===================================================================== *)
(** * More properties of the registry, the catalog and the manifest *)
(* ===================================================================== *)

Section RegistryMore.

Context {World : Type}.
Implicit Types (tool t : MCPToolDefinition World) (tools ds : list (MCPToolDefinition World)).

Lemma find_tool_app tools tools' (n : string) :
  find_tool (tools ++ tools') n
  = match find_tool tools n with
    | Some t => Some t
    | None => find_tool tools' n
    end.
Proof.
  unfold find_tool. induction tools as [|a tools IH]; [reflexivity|].
  simpl. destruct (String.eqb (name a) n); [reflexivity|exact IH].
Qed.

(** X8: after a registration that succeeded, the tool is found under its
    name and every other name resolves as before. *)
Theorem registerTool_then_find tool tools tools' :
  registerTool tool tools = (Returns tt, tools') ->
  find_tool tools' (name tool) = Some tool
  /\ forall n, n <> name tool -> find_tool tools' n = find_tool tools n.
Proof.
  unfold registerTool. destruct (find_tool tools (name tool)) eqn:E; [discriminate|].
  intros [= <-]. split.
  - rewrite find_tool_app, E. unfold find_tool. simpl. by rewrite String.eqb_refl.
  - intros n Hn. rewrite find_tool_app. destruct (find_tool tools n); [reflexivity|].
    unfold find_tool. simpl. destruct (String.eqb_spec (name tool) n); [congruence|done].
Qed.

Lemma fold_register_find ds tools (n : string) :
  find_tool (fold_left (fun tools d => snd (registerTool d tools)) ds tools) n
  = match find_tool tools n with
    | Some t => Some t
    | None => find_tool ds n
    end.
Proof.
  revert tools. induction ds as [|d ds IH]; intros tools.
  - simpl. by destruct (find_tool tools n).
  - simpl. rewrite IH. unfold registerTool.
    destruct (find_tool tools (name d)) as [t|] eqn:E; simpl.
    + destruct (find_tool tools n) eqn:En; [reflexivity|].
      destruct (String.eqb_spec (name d) n) as [Heq|_]; [|reflexivity].
      rewrite Heq in E. congruence.
    + rewrite find_tool_app. destruct (find_tool tools n); [reflexivity|].
      unfold find_tool. simpl. by destruct (String.eqb (name d) n).
Qed.

(** X9: the first registration of a name wins: in the registry built from a
    sequence of [registerTool] calls, a name resolves to the first tool of
    the sequence that has it (the later ones were refused). *)
Theorem first_registration_wins ds (n : string) :
  find_tool (register_all ds) n = find_tool ds n.
Proof. unfold register_all. by rewrite fold_register_find. Qed.

(** X10: the catalog never lists a name twice, and its names are those of
    the registry in order. *)
Theorem catalog_names_distinct ds :
  map Tool_name (handleListTools (register_all ds)) = map name (register_all ds)
  /\ NoDup (map Tool_name (handleListTools (register_all ds))).
Proof.
  assert (E : forall tools, map Tool_name (handleListTools tools) = map name tools).
  { intros tools. unfold handleListTools. rewrite map_map. reflexivity. }
  split; [apply E|]. rewrite E. apply register_all_names.
Qed.

(** X11: the manifest lists the registered tools in order under their
    names, and for a tool whose input schema is an object schema the catalog
    entry carries exactly the input schema of the manifest. *)
Theorem manifest_agrees_with_catalog (config : MCPServerConfig) tools :
  map manifest_tool_name (manifest_tools (generateManifest config tools))
  = map Tool_name (handleListTools tools)
  /\ forall (i : nat) tool shape,
      tools !! i = Some tool -> inputSchema tool = ZodObject shape ->
      Tool_inputSchema <$> handleListTools tools !! i
      = manifest_tool_input <$> manifest_tools (generateManifest config tools) !! i.
Proof.
  split.
  - unfold generateManifest, handleListTools. simpl. by rewrite !map_map.
  - intros i tool shape Hi Hshape.
    rewrite (handleListTools_lookup tools i tool Hi).
    unfold generateManifest. simpl.
    change (@map ?A ?B ?f ?l) with (f <$> l).
    rewrite list_lookup_fmap, Hi. simpl. f_equal.
    rewrite Hshape, zodToJsonSchema_object. reflexivity.
Qed.

End RegistryMore.

Lemma registerTool_then_find_witness :
  find_tool [greet; calculate] "calculate" = Some calculate
  /\ forall n, n <> "calculate" -> find_tool [greet; calculate] n = find_tool [greet] n.
Proof.
  apply (registerTool_then_find calculate [greet] [greet; calculate]). reflexivity.
Defined.

(* ===================================================================== *)
(** * More properties of the translator and of the error format *)
(* ===================================================================== *)

Lemma fold_number_checks (checks : list ZodNumberCheck) :
  let j := fold_left apply_number_check checks (schema_of_type "number") in
  type j = (if decide (NumInt ∈ checks) then "integer" else "number")
  /\ minimum j = last (omap number_minimum checks)
  /\ maximum j = last (omap number_maximum checks)
  /\ properties j = None /\ required j = None /\ items j = None /\ enum j = None
  /\ minLength j = None /\ maxLength j = None /\ format j = None
  /\ nullable j = None /\ const j = None.
Proof.
  induction checks as [|c checks IH] using rev_ind.
  - cbv zeta. case_decide as H; [by apply elem_of_nil in H|done].
  - cbv zeta in *. rewrite fold_left_app. simpl.
    destruct IH as (Ht & Hmin & Hmax & Hrest).
    rewrite !omap_app.
    destruct c; simpl; rewrite ?app_nil_r, ?last_snoc;
      (split; [|split; [|split]]; try done);
      rewrite ?Ht; repeat case_decide; try done; set_solver.
Qed.

(** X12: a number schema translates to type [integer] when one of its
    checks is [int] and to [number] otherwise; [minimum] and [maximum] are
    the values of its last [min] and [max] checks, absent when there is none;
    no other key is set. *)
Theorem zodToJsonSchema_number (checks : list ZodNumberCheck) :
  zodToJsonSchema (ZodNumber checks)
  = mkJSONSchema (if decide (NumInt ∈ checks) then "integer" else "number")
      None None None None
      (last (omap number_minimum checks)) (last (omap number_maximum checks))
      None None None None None.
Proof.
  change (zodToJsonSchema (ZodNumber checks))
    with (fold_left apply_number_check checks (schema_of_type "number")).
  pose proof (fold_number_checks checks) as H. cbv zeta in H.
  destruct (fold_left apply_number_check checks (schema_of_type "number")).
  simpl in H. destruct H as (-> & -> & -> & -> & -> & -> & -> & -> & -> & -> & -> & ->).
  reflexivity.
Qed.

Lemma fold_string_checks (checks : list ZodStringCheck) :
  let j := fold_left apply_string_check checks (schema_of_type "string") in
  type j = "string"
  /\ format j = last (omap string_format checks)
  /\ minLength j = last (omap string_minLength checks)
  /\ maxLength j = last (omap string_maxLength checks)
  /\ properties j = None /\ required j = None /\ items j = None /\ enum j = None
  /\ minimum j = None /\ maximum j = None
  /\ nullable j = None /\ const j = None.
Proof.
  induction checks as [|c checks IH] using rev_ind; [done|].
  cbv zeta in *. rewrite fold_left_app. simpl.
  destruct IH as (Ht & Hf & Hmin & Hmax & Hrest).
  rewrite !omap_app.
  destruct c; simpl; rewrite ?app_nil_r, ?last_snoc; done.
Qed.

(** X13: a string schema always translates to type [string]; [format] is
    that of its last email, url or uuid check (email, uri, uuid), and
    [minLength] and [maxLength] are the values of its last [min] and [max]
    checks, each absent when there is no such check; no other key is set. *)
Theorem zodToJsonSchema_string (checks : list ZodStringCheck) :
  zodToJsonSchema (ZodString checks)
  = mkJSONSchema "string" None None None None None None
      (last (omap string_minLength checks)) (last (omap string_maxLength checks))
      (last (omap string_format checks)) None None.
Proof.
  change (zodToJsonSchema (ZodString checks))
    with (fold_left apply_string_check checks (schema_of_type "string")).
  pose proof (fold_string_checks checks) as H. cbv zeta in H.
  destruct (fold_left apply_string_check checks (schema_of_type "string")).
  simpl in H. destruct H as (-> & -> & -> & -> & -> & -> & -> & -> & -> & -> & -> & ->).
  reflexivity.
Qed.

(** X14: whatever the schema, the translation has one of the six type
    names of JSON Schema. *)
Theorem zodToJsonSchema_type (schema : ZodType) :
  type (zodToJsonSchema schema) ∈ json_types.
Proof.
  unfold json_types.
  induction schema as [shape|checks|checks| |element IH|inner IH|inner IH|values|v|n].
  - rewrite zodToJsonSchema_object. simpl. set_solver.
  - change (zodToJsonSchema (ZodString checks))
      with (fold_left apply_string_check checks (schema_of_type "string")).
    rewrite (proj1 (fold_string_checks checks)). set_solver.
  - change (zodToJsonSchema (ZodNumber checks))
      with (fold_left apply_number_check checks (schema_of_type "number")).
    rewrite (proj1 (fold_number_checks checks)). destruct (decide _); set_solver.
  - simpl. set_solver.
  - simpl. set_solver.
  - exact IH.
  - simpl. destruct (zodToJsonSchema inner). exact IH.
  - simpl. set_solver.
  - destruct v; simpl; set_solver.
  - simpl. set_solver.
Qed.

Lemma obj_set_keys {A : Type} (obj : list (string * A)) (key : string) (x : A) (k : string) :
  k ∈ map fst (obj_set obj key x) <-> k = key \/ k ∈ map fst obj.
Proof.
  induction obj as [|[k' y] obj IH]; simpl.
  - rewrite list_elem_of_singleton. split; [by left|]. intros [H|H]; [done|].
    by apply elem_of_nil in H.
  - destruct (String.eqb_spec k' key) as [->|Hne]; simpl.
    + rewrite !elem_of_cons. tauto.
    + rewrite !elem_of_cons, IH. tauto.
Qed.

Lemma object_entries_any (es : list (string * ZodType))
    (properties : list (string * JSONSchema)) (required : list string) :
  snd (object_entries es properties required) = (required ++ required_names es)%list
  /\ forall k, k ∈ map fst properties \/ k ∈ map fst es ->
               k ∈ map fst (fst (object_entries es properties required)).
Proof.
  revert properties required.
  induction es as [|[key value] es IH]; intros properties required.
  - simpl. unfold required_names. simpl. rewrite app_nil_r. split; [done|].
    intros k [H|H]; [done|by apply elem_of_nil in H].
  - simpl. destruct (IH (obj_set properties key (zodToJsonSchema value))
                        (if instanceof_ZodOptional value then required
                         else (required ++ [key])%list)) as [IH1 IH2].
    split.
    + rewrite IH1. unfold required_names. rewrite filter_cons. simpl.
      destruct (instanceof_ZodOptional value); simpl; [done|].
      by rewrite <- app_assoc.
    + intros k Hk. apply IH2. rewrite obj_set_keys.
      destruct Hk as [Hk|Hk]; [tauto|].
      apply elem_of_cons in Hk as [->|Hk]; tauto.
Qed.

(** X15: in every translation the [required] key, when present, is a
    non-empty list, and each name in it is a key of [properties]. *)
Theorem required_names_are_properties (schema : ZodType) :
  forall names, required (zodToJsonSchema schema) = Some names ->
    names <> []
    /\ exists props,
        properties (zodToJsonSchema schema) = Some props
        /\ forall n, n ∈ names -> n ∈ map fst props.
Proof.
  induction schema as [shape|checks|checks| |element IH|inner IH|inner IH|values|v|n];
    intros names.
  - rewrite zodToJsonSchema_object. simpl.
    destruct (object_entries_any shape [] []) as [Hreq Hkeys]. simpl in Hreq.
    destruct (snd (object_entries shape [] [])) as [|r rs] eqn:E; [discriminate|].
    simpl. intros [= <-]. split; [done|]. eexists. split; [reflexivity|].
    intros k Hk. apply Hkeys. right. rewrite Hreq in Hk. unfold required_names in Hk.
    apply list_elem_of_fmap in Hk as ([k' v'] & -> & Hin).
    apply list_elem_of_filter in Hin as [_ Hin].
    apply list_elem_of_fmap. by exists (k', v').
  - change (zodToJsonSchema (ZodString checks))
      with (fold_left apply_string_check checks (schema_of_type "string")).
    destruct (fold_string_checks checks) as (_ & _ & _ & _ & _ & -> & _). discriminate.
  - change (zodToJsonSchema (ZodNumber checks))
      with (fold_left apply_number_check checks (schema_of_type "number")).
    destruct (fold_number_checks checks) as (_ & _ & _ & _ & -> & _). discriminate.
  - discriminate.
  - discriminate.
  - exact (IH names).
  - simpl. destruct (zodToJsonSchema inner). exact (IH names).
  - discriminate.
  - discriminate.
  - discriminate.
Qed.

Lemma required_names_are_properties_witness :
  ["name"] <> []
  /\ exists props,
      properties (zodToJsonSchema (inputSchema greet)) = Some props
      /\ forall n, n ∈ ["name"; "formal"] -> n ∈ map fst props.
Proof.
  destruct (required_names_are_properties (inputSchema greet) ["name"; "formal"]
              eq_refl) as [_ H].
  split; [discriminate|exact H].
Defined.

(** X16: with distinct keys, a property is listed in [required] exactly when
    its schema is not an Optional at the top; an Optional below a Nullable
    does not count, although it translates to the same schema as a Nullable
    below an Optional. *)
Theorem optional_counts_only_on_top (shape : list (string * ZodType))
    (key : string) (v : ZodType) :
  NoDup (map fst shape) -> (key, v) ∈ shape ->
  (key ∈ default [] (required (zodToJsonSchema (ZodObject shape)))
   <-> forall inner, v <> ZodOptional inner)
  /\ forall s, zodToJsonSchema (ZodNullable (ZodOptional s))
               = zodToJsonSchema (ZodOptional (ZodNullable s)).
Proof.
  intros Hnd Hin. split; [|reflexivity].
  rewrite zodToJsonSchema_object, object_entries_spec by done. simpl.
  assert (Hreq : key ∈ required_names shape <-> instanceof_ZodOptional v = false).
  { unfold required_names. split.
    - intros Hk. apply list_elem_of_fmap in Hk as ([k' v'] & Hk & Hin').
      simpl in Hk. subst k'. apply list_elem_of_filter in Hin' as [Hopt Hin'].
      simpl in Hopt. assert (v' = v); [|by subst].
      clear Hopt. induction shape as [|[k0 v0] shape IH]; [by apply elem_of_nil in Hin|].
      simpl in Hnd. apply NoDup_cons in Hnd as [Hk0 Hnd].
      apply elem_of_cons in Hin as [Heq|Hin];
        apply elem_of_cons in Hin' as [Heq'|Hin'].
      + congruence.
      + injection Heq as <- <-. destruct Hk0.
        apply list_elem_of_fmap. by exists (key, v').
      + injection Heq' as <- <-. destruct Hk0.
        apply list_elem_of_fmap. by exists (key, v).
      + by apply IH.
    - intros Hopt. apply list_elem_of_fmap. exists (key, v). split; [done|].
      apply list_elem_of_filter. by split. }
  assert (Hdef : default [] (if (0 <? Z.of_nat (length (required_names shape)))%Z
                             then Some (required_names shape) else None)
                 = required_names shape).
  { destruct (required_names shape); reflexivity. }
  rewrite Hdef, Hreq. split.
  - intros Hopt inner ->. discriminate.
  - intros Hno. destruct v; try reflexivity. by destruct (Hno v).
Qed.

Lemma optional_counts_only_on_top_witness :
  "nick" ∈ default []
    (required
       (zodToJsonSchema
          (ZodObject [("name", ZodString []);
                      ("nick", ZodNullable (ZodOptional (ZodString [])))])))
  <-> forall inner, ZodNullable (ZodOptional (ZodString [])) <> ZodOptional inner.
Proof.
  apply (optional_counts_only_on_top
           [("name", ZodString []); ("nick", ZodNullable (ZodOptional (ZodString [])))]
           "nick" (ZodNullable (ZodOptional (ZodString [])))).
  - apply (bool_decide_unpack _). vm_compute. exact I.
  - right. left.
Defined.

Lemma includes_join (sep x : string) (parts : list string) :
  x ∈ parts -> includes (join sep parts) x.
Proof.
  induction parts as [|p parts IH]; intros Hin; [by apply elem_of_nil in Hin|].
  apply elem_of_cons in Hin as [->|Hin].
  - destruct parts as [|q parts]; simpl; [apply includes_refl|].
    apply includes_app_l, includes_refl.
  - destruct parts as [|q parts]; [by apply elem_of_nil in Hin|].
    change (join sep (p :: q :: parts)) with (p +:+ sep +:+ join sep (q :: parts)).
    do 2 apply includes_app_r. by apply IH.
Qed.

(** X17: the formatted error names every issue: for each issue, its path
    joined by dots, a colon and its message occur in the text; with no issue
    the text is empty. *)
Theorem formatZodError_names_every_issue (error : ZodError) :
  (forall issue, issue ∈ issues error ->
     includes (formatZodError error)
       (join "." (map PathKey_to_string (path issue)) +:+ ": " +:+ message issue))
  /\ (issues error = [] -> formatZodError error = EmptyString).
Proof.
  unfold formatZodError. split.
  - intros issue Hin. apply includes_join.
    apply list_elem_of_fmap. by exists issue.
  - intros ->. reflexivity.
Qed.

(* ===================================================================== *)
(** * More properties of the rate limiter *)
(* ===================================================================== *)

Section RateLimiterMore.

Import RateLimiter.

Lemma filter_filter_weaker {A : Type} (P Q : A -> Prop)
    `{!forall x, Decision (P x)} `{!forall x, Decision (Q x)} (l : list A) :
  (forall x, P x -> Q x) -> filter P (filter Q l) = filter P l.
Proof.
  intros HPQ. induction l as [|x l IH]; [reflexivity|].
  rewrite (filter_cons Q). destruct (decide (Q x)) as [Hq|Hq].
  - rewrite !filter_cons. destruct (decide (P x)); by rewrite IH.
  - rewrite filter_cons, decide_False, IH; [done|]. intros Hp. by apply Hq, HPQ.
Qed.

Lemma check_windowMs (key : string) (now : Z) (this : t) :
  windowMs (snd (check key now this)) = windowMs this.
Proof. rewrite check_unfold. destruct (decide _); reflexivity. Qed.

Lemma check_other_key (key other : string) (now : Z) (this : t) :
  other <> key ->
  requests (snd (check other now this)) !! key = requests this !! key.
Proof.
  intros Hne. rewrite check_unfold. destruct (decide _); [|reflexivity].
  simpl. by rewrite lookup_insert_ne.
Qed.

(** The stored entries of [key] and its accepted times agree on every window
    that ends at [hi] or later. *)
Lemma record_call_agree (key : string) (this : t) (acc : list Z) (hi : Z)
    (call : string * Z) :
  (forall now, hi <= now -> valid_at now this key
                            = filter (fun time => now - windowMs this < time) acc) ->
  hi <= call.2 ->
  let st := record_call key (this, acc) call in
  (forall now, call.2 <= now ->
               valid_at now st.1 key
               = filter (fun time => now - windowMs st.1 < time) st.2)
  /\ max st.1 = max this /\ windowMs st.1 = windowMs this.
Proof.
  intros Hagree Hhi. destruct call as [k t]. simpl in Hhi. unfold record_call. simpl.
  pose proof (check_max k t this) as Hm. pose proof (check_windowMs k t this) as Hw.
  destruct (decide (k = key)) as [->|Hne].
  - rewrite bool_decide_eq_true_2 by done. revert Hm Hw. rewrite check_unfold.
    destruct (decide _) as [Hlt|Hge]; simpl; intros _ _.
    + split; [|done]. intros now Hnow. rewrite valid_at_insert.
      rewrite !filter_app. f_equal.
      unfold valid_at. rewrite filter_filter_weaker by (intros x; lia).
      apply (Hagree now). lia.
    + split; [|done]. intros now Hnow. apply Hagree. lia.
  - rewrite bool_decide_eq_false_2 by done.
    pose proof (check_other_key key k t this Hne) as Ho.
    revert Hm Hw Ho. destruct (check k t this) as [ok this']. simpl.
    intros Hm Hw Ho. rewrite andb_false_r. simpl.
    split; [|done]. intros now Hnow. unfold valid_at. rewrite Ho, Hw.
    apply Hagree. lia.
Qed.

Lemma serve_agree (key : string) (calls : list (string * Z)) (this : t)
    (acc : list Z) (lo now : Z) :
  (forall now, lo <= now -> valid_at now this key
                            = filter (fun time => now - windowMs this < time) acc) ->
  ascending lo (map snd calls ++ [now]) ->
  let st := fold_left (record_call key) calls (this, acc) in
  valid_at now st.1 key = filter (fun time => now - windowMs this < time) st.2
  /\ max st.1 = max this /\ windowMs st.1 = windowMs this.
Proof.
  revert this acc lo. induction calls as [|call calls IH]; intros this acc lo Hagree Hasc.
  - simpl in *. split; [|done]. apply Hagree. tauto.
  - simpl in Hasc. destruct Hasc as [Hlo Hasc].
    destruct (record_call_agree key this acc lo call Hagree Hlo) as (Hagree' & Hm & Hw).
    simpl. destruct (record_call key (this, acc) call) as [this' acc'] eqn:E.
    simpl in *. destruct (IH this' acc' call.2 Hagree' Hasc) as (H1 & H2 & H3).
    rewrite H1, H2, H3, Hw, Hm. done.
Qed.

(** X18: with a clock that never goes back, a check of a key is accepted
    exactly when fewer than [max] checks of that key were accepted during
    the last [windowMs] milliseconds. *)
Theorem check_counts_recent_accepts (m w : Z) (calls : list (string * Z))
    (key : string) (now lo : Z) :
  ascending lo (map snd calls ++ [now]) ->
  let st := serve key calls (new m w) in
  fst (check key now st.1) = true
  <-> Z.of_nat (length (filter (fun time => now - w < time) st.2)) < m.
Proof.
  intros Hasc st.
  destruct (serve_agree key calls (new m w) [] lo now) as (Hv & Hm & Hw); [|done|].
  { intros t _. unfold valid_at, new. simpl. by rewrite lookup_empty. }
  fold (serve key calls (new m w)) in Hv, Hm, Hw. fold st in Hv, Hm, Hw.
  simpl in Hv, Hm, Hw. rewrite check_unfold, Hv, Hm.
  destruct (decide _); simpl; split; (done || lia).
Qed.

Lemma run_other_key (ops : list op) (this : t) (key : string) :
  (forall o, o ∈ ops -> op_key o <> key) ->
  requests (run ops this) !! key = requests this !! key
  /\ max (run ops this) = max this /\ windowMs (run ops this) = windowMs this.
Proof.
  revert this. induction ops as [|o ops IH]; intros this Hne; [done|].
  unfold run in *. simpl.
  assert (Ho : op_key o <> key) by (apply Hne; left).
  destruct (IH (step this o)) as (H1 & H2 & H3).
  { intros o' Hin. apply Hne. by right. }
  rewrite H1, H2, H3. destruct o as [k t|k]; simpl in *.
  - by rewrite check_other_key, check_max, check_windowMs.
  - by rewrite lookup_delete_ne.
Qed.

(** X19: calls under other keys do not touch a key: after any sequence of
    checks and resets of other keys, the entries of the key are the same and
    a check of the key has the answer it would have had before. *)
Theorem keys_are_independent (ops : list op) (this : t) (key : string) (now : Z) :
  (forall o, o ∈ ops -> op_key o <> key) ->
  requests (run ops this) !! key = requests this !! key
  /\ fst (check key now (run ops this)) = fst (check key now this).
Proof.
  intros Hne. destruct (run_other_key ops this key Hne) as (H1 & H2 & H3).
  split; [exact H1|]. rewrite !check_unfold. unfold valid_at. rewrite H1, H2, H3.
  by destruct (decide _).
Qed.

(** X20: a key is admitted again once its entries are all at least
    [windowMs] old, and after a reset: when [max] is positive the check is
    accepted and the key's entry becomes the new time alone. *)
Theorem check_after_quiet_window (this : t) (key : string) (now : Z) :
  0 < max this ->
  ((forall time, time ∈ default [] (requests this !! key) ->
                 time + windowMs this <= now) ->
   check key now this
   = (true, mk (<[key := [now]]> (requests this)) (max this) (windowMs this)))
  /\ fst (check key now (reset key this)) = true.
Proof.
  intros Hmax. split.
  - intros Hold. rewrite check_unfold.
    assert (E : valid_at now this key = []).
    { unfold valid_at. apply filter_no_match. intros x Hx Hlt.
      specialize (Hold x Hx). lia. }
    rewrite E. simpl. by rewrite decide_True by lia.
  - rewrite check_unfold. unfold valid_at, reset. simpl.
    rewrite lookup_delete_eq. simpl. by rewrite decide_True by lia.
Qed.

Lemma run_blocked (ops : list op) (this : t) :
  max this <= 0 -> requests this = ∅ ->
  requests (run ops this) = ∅ /\ max (run ops this) = max this.
Proof.
  revert this. induction ops as [|o ops IH]; intros this Hmax Hempty; [done|].
  unfold run in *. simpl. destruct o as [k t|k]; simpl.
  - rewrite check_unfold. destruct (decide _) as [Hlt|_]; simpl; [lia|].
    by apply IH.
  - destruct (IH (reset k this)) as [H1 H2]; [done| |done].
    unfold reset. simpl. rewrite Hempty. apply delete_empty.
Qed.

(** X21: a limiter created with [max] zero or negative rejects every check,
    whatever came before, and never stores anything. *)
Theorem nonpositive_max_rejects_all (m w : Z) (ops : list op) (key : string) (now : Z) :
  m <= 0 ->
  fst (check key now (run ops (new m w))) = false
  /\ requests (run ops (new m w)) = ∅.
Proof.
  intros Hm. destruct (run_blocked ops (new m w)) as [He Hmax]; [done|done|].
  split; [|exact He]. rewrite check_unfold, Hmax. simpl.
  by rewrite decide_False by lia.
Qed.

End RateLimiterMore.

Lemma check_counts_recent_accepts_witness :
  let st := serve "a" [("a", 0); ("b", 10); ("a", 20); ("a", 30)]
              (RateLimiter.new 2 1000) in
  st.2 = [0; 20]
  /\ (fst (RateLimiter.check "a" 1010 st.1) = true
      <-> Z.of_nat (length (filter (fun time => 1010 - 1000 < time) st.2)) < 2).
Proof.
  split; [vm_compute; reflexivity|].
  apply (check_counts_recent_accepts 2 1000
           [("a", 0); ("b", 10); ("a", 20); ("a", 30)] "a" 1010 0).
  simpl. lia.
Defined.

Lemma keys_are_independent_witness :
  let ops := [RateLimiter.Check "b" 5; RateLimiter.Reset "c"; RateLimiter.Check "b" 6] in
  let this := snd (RateLimiter.check "a" 0 (RateLimiter.new 1 1000)) in
  RateLimiter.requests (RateLimiter.run ops this) !! "a"
  = RateLimiter.requests this !! "a"
  /\ fst (RateLimiter.check "a" 7 (RateLimiter.run ops this))
     = fst (RateLimiter.check "a" 7 this).
Proof.
  apply (keys_are_independent
           [RateLimiter.Check "b" 5; RateLimiter.Reset "c"; RateLimiter.Check "b" 6]
           (snd (RateLimiter.check "a" 0 (RateLimiter.new 1 1000))) "a" 7).
  intros o Ho.
  apply elem_of_cons in Ho as [->|Ho]; [discriminate|].
  apply elem_of_cons in Ho as [->|Ho]; [discriminate|].
  apply elem_of_cons in Ho as [->|Ho]; [discriminate|].
  by apply elem_of_nil in Ho.
Defined.

Lemma check_after_quiet_window_witness :
  let this := snd (RateLimiter.check "a" 0 (RateLimiter.new 1 1000)) in
  fst (RateLimiter.check "a" 1000 this) = true
  /\ fst (RateLimiter.check "a" 1 (RateLimiter.reset "a" this)) = true.
Proof.
  pose proof (check_after_quiet_window
                (snd (RateLimiter.check "a" 0 (RateLimiter.new 1 1000))) "a" 1000)
    as H.
  destruct H as [H1 _]; [reflexivity|].
  split.
  - rewrite H1; [reflexivity|].
    intros time Ht. vm_compute in Ht.
    apply list_elem_of_singleton in Ht. subst time. vm_compute. discriminate.
  - apply (check_after_quiet_window
             (snd (RateLimiter.check "a" 0 (RateLimiter.new 1 1000))) "a" 1).
    reflexivity.
Defined.

Lemma nonpositive_max_rejects_all_witness :
  fst (RateLimiter.check "a" 5
         (RateLimiter.run [RateLimiter.Check "a" 0; RateLimiter.Reset "a"]
            (RateLimiter.new 0 1000))) = false.
Proof.
  apply (nonpositive_max_rejects_all 0 1000
           [RateLimiter.Check "a" 0; RateLimiter.Reset "a"] "a" 5).
  lia.
Defined.

(* ===================================================================== *)
(** * Properties of the time window grammar and of the rate-limit middleware *)
(* ===================================================================== *)

Lemma split_last_snoc (a : string) (c : ascii) :
  split_last (a +:+ String c EmptyString) = Some (a, c).
Proof.
  induction a as [|x a IH]; [reflexivity|].
  rewrite append_cons. simpl. by rewrite IH.
Qed.

Lemma split_last_Some (s init : string) (c : ascii) :
  split_last s = Some (init, c) -> s = init +:+ String c EmptyString.
Proof.
  revert init. induction s as [|x s IH]; intros init H; [discriminate|].
  simpl in H. destruct (split_last s) as [[i f]|] eqn:E.
  - injection H as <- <-. rewrite append_cons. f_equal. by apply IH.
  - injection H as <- <-. destruct s; [reflexivity|].
    simpl in E. by destruct (split_last s) as [[? ?]|].
Qed.

Lemma parseInt_from_app (acc : Z) (a b : string) :
  parseInt_from acc (a +:+ b) = parseInt_from (parseInt_from acc a) b.
Proof.
  revert acc. induction a as [|x a IH]; intros acc; [reflexivity|].
  rewrite append_cons. simpl. apply IH.
Qed.

Lemma all_digits_app (a b : string) :
  all_digits (a +:+ b) = all_digits a && all_digits b.
Proof.
  induction a as [|x a IH]; [reflexivity|].
  rewrite append_cons. simpl. by rewrite IH, andb_assoc.
Qed.

Lemma pretty_N_char_digit (d : N) :
  (d < 10)%N ->
  is_digit (pretty_N_char d) = true
  /\ Z.of_N (N_of_ascii (pretty_N_char d) - 48) = Z.of_N d.
Proof.
  intros Hd.
  assert (H : (d = 0 \/ d = 1 \/ d = 2 \/ d = 3 \/ d = 4 \/ d = 5 \/ d = 6
               \/ d = 7 \/ d = 8 \/ d = 9)%N) by lia.
  repeat (destruct H as [->|H]; [by vm_compute|]). subst d. by vm_compute.
Qed.

Lemma pretty_N_go_app (x : N) (s : string) :
  pretty_N_go x s = pretty_N_go x EmptyString +:+ s.
Proof.
  revert s. induction (N.lt_wf_0 x) as [x _ IH]. intros s.
  destruct (decide (0 < x)%N) as [Hx|Hx].
  - assert (Hlt : (x `div` 10 < x)%N) by (apply N.div_lt; lia).
    rewrite !(pretty_N_go_step x) by done.
    rewrite (IH _ Hlt (String _ s)), (IH _ Hlt (String _ EmptyString)).
    by rewrite append_assoc.
  - assert (x = 0%N) as -> by lia. by rewrite !pretty_N_go_0.
Qed.

Lemma pretty_N_go_digits (x : N) :
  all_digits (pretty_N_go x EmptyString) = true
  /\ parseInt (pretty_N_go x EmptyString) = Z.of_N x.
Proof.
  unfold parseInt. induction (N.lt_wf_0 x) as [x _ IH].
  destruct (decide (0 < x)%N) as [Hx|Hx].
  - rewrite (pretty_N_go_step x) by done. rewrite pretty_N_go_app.
    destruct (IH (x `div` 10)%N) as [Hd Hv]; [apply N.div_lt; lia|].
    destruct (pretty_N_char_digit (x `mod` 10)%N) as [Hc Hn];
      [apply N.mod_lt; lia|].
    split.
    + rewrite all_digits_app, Hd. simpl. by rewrite Hc.
    + rewrite parseInt_from_app, Hv. simpl. rewrite Hn.
      rewrite (N.div_mod x 10) at 3 by lia. lia.
  - assert (x = 0%N) as -> by lia. by rewrite pretty_N_go_0.
Qed.

Lemma number_to_string_digits (n : Z) :
  0 <= n ->
  number_to_string n <> EmptyString
  /\ all_digits (number_to_string n) = true
  /\ parseInt (number_to_string n) = n.
Proof.
  intros Hn. unfold number_to_string, pretty, pretty_Z.
  destruct n as [|p|p]; [done| |lia].
  unfold pretty, pretty_positive, pretty, pretty_N.
  rewrite decide_False by done.
  destruct (pretty_N_go_digits (N.pos p)) as [Hd Hv].
  split; [|by split].
  intros E. rewrite E in Hv. discriminate.
Qed.

Lemma match_time_window_snoc (digits : string) (c : ascii) (unit : TimeUnit) :
  digits <> EmptyString -> all_digits digits = true -> unit_of_char c = Some unit ->
  match_time_window (digits +:+ String c EmptyString) = Some (digits, unit).
Proof.
  intros Hne Hd Hu. unfold match_time_window.
  rewrite split_last_snoc, Hu, Hd.
  by destruct (String.eqb_spec digits EmptyString).
Qed.

(** X22: a non-empty string of digits followed by one of [s], [m], [h], [d]
    parses to the value of the digits times 1000, 60000, 3600000 or 86400000;
    in particular the decimal writing of a number [n >= 0] followed by a unit
    parses to [n] times the unit. *)
Theorem parseTimeWindow_value (c : ascii) (unit : TimeUnit) :
  unit_of_char c = Some unit ->
  (forall digits,
      digits <> EmptyString -> all_digits digits = true ->
      parseInt digits * multipliers unit <= 2 ^ 53 ->
      parseTimeWindow (digits +:+ String c EmptyString)
      = Returns (parseInt digits * multipliers unit))
  /\ (forall n,
         0 <= n -> n * multipliers unit <= 2 ^ 53 ->
         parseTimeWindow (number_to_string n +:+ String c EmptyString)
         = Returns (n * multipliers unit)).
Proof.
  intros Hu. split.
  - intros digits Hne Hd _. unfold parseTimeWindow.
    by rewrite (match_time_window_snoc digits c unit).
  - intros n Hn _. destruct (number_to_string_digits n Hn) as (Hne & Hd & Hv).
    unfold parseTimeWindow.
    by rewrite (match_time_window_snoc _ c unit), Hv.
Qed.

Lemma parseTimeWindow_value_witness :
  parseTimeWindow "1m" = Returns 60000
  /\ parseTimeWindow "1h" = Returns 3600000
  /\ parseTimeWindow "1d" = Returns 86400000
  /\ parseTimeWindow (number_to_string 30 +:+ "s") = Returns 30000.
Proof.
  split; [|split; [|split]].
  - apply (proj1 (parseTimeWindow_value "m" unit_m eq_refl) "1");
      [discriminate|reflexivity|vm_compute; discriminate].
  - apply (proj1 (parseTimeWindow_value "h" unit_h eq_refl) "1");
      [discriminate|reflexivity|vm_compute; discriminate].
  - apply (proj1 (parseTimeWindow_value "d" unit_d eq_refl) "1");
      [discriminate|reflexivity|vm_compute; discriminate].
  - apply (proj2 (parseTimeWindow_value "s" unit_s eq_refl) 30);
      [lia|vm_compute; discriminate].
Defined.

Lemma parseInt_from_nonneg (acc : Z) (digits : string) :
  0 <= acc -> 0 <= parseInt_from acc digits.
Proof.
  revert acc. induction digits as [|c digits IH]; intros acc Hacc; [done|].
  simpl. apply IH. lia.
Qed.

Lemma digit_is_no_unit (c : ascii) : is_digit c = true -> unit_of_char c = None.
Proof.
  unfold is_digit, unit_of_char. intros H.
  apply andb_prop in H as [H1 H2]. apply N.leb_le in H1, H2.
  repeat match goal with
         | |- context [Ascii.eqb c ?k] =>
             destruct (Ascii.eqb_spec c k) as [->|_]; [simpl in H2; lia|]
         end.
  reflexivity.
Qed.






(* ===================================================================== *)
(** * More properties of the authentication and CORS middleware *)
(* ===================================================================== *)

Lemma substring_all (s : string) : String.substring 0 (String.length s) s = s.
Proof. induction s as [|c s IH]; [reflexivity|]. simpl. by rewrite IH. Qed.

Lemma bearer_prefix (tok : string) :
  String.prefix "Bearer " ("Bearer " +:+ tok) = true
  /\ String.substring 7 (String.length ("Bearer " +:+ tok) - 7) ("Bearer " +:+ tok)
     = tok.
Proof.
  change ("Bearer " +:+ tok)
    with (String "B" (String "e" (String "a" (String "r" (String "e"
            (String "r" (String " " tok))))))).
  split; [by destruct tok|].
  simpl. rewrite Nat.sub_0_r. apply substring_all.
Qed.


(** X27: with type [bearer], the token is what follows the prefix Bearer
    and a space in the authorization header: [validate] is called with it
    and the request passes exactly when it resolves to true; an empty token,
    or a header without that prefix, is answered 401 Authentication required
    without calling [validate]. *)
Theorem bearer_token_extraction (hn : option string) (v : string -> result bool)
    (req : GenericRequest) (header : string) :
  headers req !! "authorization" = Some (HeaderString header) ->
  let run := createAuthMiddleware (mkAuthOptions bearer hn (Some v)) req in
  let required :=
    reject 401 "Authentication required" "Missing bearer token" [] in
  (forall tok, header = "Bearer " +:+ tok -> tok <> EmptyString ->
               validate_calls run = [tok]
               /\ (next_calls run = 1%nat <-> v tok = Returns true))
  /\ (header = "Bearer " -> run = required)
  /\ (String.prefix "Bearer " header = false -> run = required).
Proof.
  intros Hh run required. unfold run, createAuthMiddleware. simpl. rewrite Hh. simpl.
  split; [|split].
  - intros tok -> Hne. destruct (bearer_prefix tok) as [-> ->].
    destruct tok as [|c tok]; [done|]. simpl.
    destruct (v (String c tok)) as [[|]|e]; simpl; split; try done;
      split; congruence.
  - intros ->. reflexivity.
  - intros ->. reflexivity.
Qed.

Lemma bearer_token_extraction_witness :
  let v := fun tok => Returns (String.eqb tok "s3cret") in
  let req :=
    mkGenericRequest None (Some "POST")
      {["authorization" := HeaderString "Bearer s3cret"]} in
  let run := createAuthMiddleware (mkAuthOptions bearer None (Some v)) req in
  validate_calls run = ["s3cret"]
  /\ (next_calls run = 1%nat <-> v "s3cret" = Returns true).
Proof.
  pose proof (bearer_token_extraction None
                (fun tok => Returns (String.eqb tok "s3cret"))
                (mkGenericRequest None (Some "POST")
                   {["authorization" := HeaderString "Bearer s3cret"]})
                "Bearer s3cret") as H.
  destruct H as [H _]; [vm_compute; reflexivity|].
  apply (H "s3cret"); [reflexivity|discriminate].
Defined.



(** X29: the CORS middleware sets its headers whatever the request is,
    Access-Control-Allow-Origin first, with the value [*] when no origin is
    configured or the configured origin is empty or a boolean, [false]
    included; a request with method OPTIONS is answered 204 and ended
    without calling [next], and every other request goes on to [next] with
    no status set. *)
Theorem cors_headers_and_preflight (options : option CorsOptions)
    (req : GenericRequest) :
  let run := createCorsMiddleware options req in
  (forall req', headers_set (createCorsMiddleware options req') = headers_set run)
  /\ (exists value rest,
         headers_set run = ("Access-Control-Allow-Origin", value) :: rest
         /\ (options ≫= origin = None
             \/ options ≫= origin = Some (OriginString EmptyString)
             \/ (exists b, options ≫= origin = Some (OriginBoolean b)) ->
             value = "*"))
  /\ (method req = Some "OPTIONS" ->
      cors_status run = Some 204 /\ ended run = true /\ cors_next_calls run = 0%nat)
  /\ (method req <> Some "OPTIONS" ->
      cors_status run = None /\ ended run = false /\ cors_next_calls run = 1%nat).
Proof.
  intros run. unfold run, createCorsMiddleware. cbv zeta.
  set (sent := match options ≫= maxAge with
               | Some age => if truthy (VNumber age) then _ else _
               | None => _
               end).
  assert (Hsent : exists rest,
             sent = ("Access-Control-Allow-Origin", originStr options) :: rest).
  { unfold sent. destruct (options ≫= credentials) as [[|]|];
      destruct (options ≫= maxAge) as [age|];
      try destruct (truthy (VNumber age)); by eexists. }
  assert (Hrun : forall r : GenericRequest,
             headers_set match method r with
                         | Some "OPTIONS" => mkCorsRun sent (Some 204) true 0
                         | _ => mkCorsRun sent None false 1
                         end = sent).
  { intros r. destruct (method r) as [m|]; [|reflexivity].
    destruct (decide (m = "OPTIONS")) as [->|Hne]; [reflexivity|].
    repeat (destruct m as [|[[] [] [] [] [] [] [] []] m]; try reflexivity). }
  split; [intros req'; by rewrite !Hrun|].
  split.
  - destruct Hsent as [rest Hs]. exists (originStr options), rest.
    rewrite Hrun. split; [exact Hs|].
    unfold originStr. destruct options as [o|]; simpl; [|done].
    intros [->|[->|[b ->]]]; reflexivity.
  - split.
    + intros ->. done.
    + intros Hne. destruct (method req) as [m|]; [|done].
      destruct (decide (m = "OPTIONS")) as [->|Hm]; [done|].
      repeat (destruct m as [|[[] [] [] [] [] [] [] []] m]; try done).
Qed.

Lemma formatZodError_names_every_issue_witness :
  includes
    (formatZodError
       (mkZodError [mkZodIssue [Key "user"; Key "email"] "Invalid email";
                    mkZodIssue [Key "tags"; Index 2] "Required"]
          "Invalid input"))
    ("tags.2" +:+ ": " +:+ "Required").
Proof.
  apply (proj1 (formatZodError_names_every_issue
                  (mkZodError [mkZodIssue [Key "user"; Key "email"] "Invalid email";
                               mkZodIssue [Key "tags"; Index 2] "Required"]
                     "Invalid input"))
           (mkZodIssue [Key "tags"; Index 2] "Required")).
  right. left.
Defined.

Lemma manifest_agrees_with_catalog_witness :
  Tool_inputSchema <$> handleListTools [greet; calculate] !! 1%nat
  = manifest_tool_input
      <$> manifest_tools
            (generateManifest
               (mkMCPServerConfig "demo-mcp" (Some "1.0.0") None None None None None)
               [greet; calculate]) !! 1%nat.
Proof.
  apply (proj2 (manifest_agrees_with_catalog
                  (mkMCPServerConfig "demo-mcp" (Some "1.0.0") None None None None None)
                  [greet; calculate]) 1%nat calculate
           [("operation", ZodEnum ["add"; "subtract"; "multiply"; "divide"]);
            ("a", ZodNumber []); ("b", ZodNumber [])]);
    reflexivity.
Defined.
